(** * Lexi chat backend: conversation core

    A shallow embedding of the conversation core of the backend
    (services/historyService.js, services/chatService.js,
    controllers/chatController.js, utils/time.js, utils/aiPrompts.js and
    the Mongoose schemas of Message and Conversation), with the
    properties of the specification stated over it.

    Conventions.
    - A JavaScript string is its sequence of UTF-16 code units, so
      [length] is JavaScript's [.length].
    - A date is its number of milliseconds since the epoch, in [Z].
    - The MongoDB collections are lists of documents in natural order.
    - A request handler is a computation over the world (database,
      clock reads, language-model calls) that returns a value or throws;
      a throw keeps every write made before it. *)

From Stdlib Require Import List ZArith NArith QArith Bool Lia String Ascii.
From Stdlib Require Import Sorting.Sorted Sorting.Permutation.
Import ListNotations.

#[local] Open Scope Z_scope.

(** ** JavaScript strings *)

Module Js.

Definition code_unit := N.
Definition jsstring := list code_unit.

(** An ASCII literal as a JavaScript string. *)
Definition lit (s : string) : jsstring :=
  map N_of_ascii (list_ascii_of_string s).

Fixpoint str_eqb (a b : jsstring) : bool :=
  match a, b with
  | [], [] => true
  | x :: a', y :: b' => N.eqb x y && str_eqb a' b'
  | _, _ => false
  end.

(** Code-unit order on strings: [str_ltb a b] is [a < b] on two strings. *)
Fixpoint str_ltb (a b : jsstring) : bool :=
  match a, b with
  | _, [] => false
  | [], _ :: _ => true
  | x :: a', y :: b' =>
      if N.ltb x y then true else if N.ltb y x then false else str_ltb a' b'
  end.

(** ** Numbers

    A Number is NaN, an infinity or a finite value.  Finite values are
    kept exact; the rounding to binary64 is left out. *)

Inductive JsNum :=
| NaN
| PosInf
| NegInf
| Fin (q : Q).

Definition num_of_Z (z : Z) : JsNum := Fin (inject_Z z).

(** [num_ltb x y] is [Some b] when [x < y] is decided as [b], and [None]
    (undefined) when one side is NaN. *)
Definition num_ltb (x y : JsNum) : option bool :=
  match x, y with
  | NaN, _ | _, NaN => None
  | PosInf, _ => Some false
  | _, PosInf => Some true
  | _, NegInf => Some false
  | NegInf, _ => Some true
  | Fin p, Fin q => Some (negb (Qle_bool q p))
  end.

(** ** Values *)

Inductive JsVal :=
| JUndefined
| JNull
| JBool (b : bool)
| JNumber (n : JsNum)
| JString (s : jsstring)
| JObject.

(** [typeof v] *)
Definition typeof (v : JsVal) : jsstring :=
  match v with
  | JUndefined => lit "undefined"
  | JNull => lit "object"
  | JBool _ => lit "boolean"
  | JNumber _ => lit "number"
  | JString _ => lit "string"
  | JObject => lit "object"
  end.

(** *** StringToNumber *)

Definition is_white (c : code_unit) : bool :=
  existsb (N.eqb c)
    [9; 10; 11; 12; 13; 32; 160; 5760; 8192; 8193; 8194; 8195; 8196; 8197;
     8198; 8199; 8200; 8201; 8202; 8232; 8233; 8239; 8287; 12288; 65279]%N.

Fixpoint drop_white (s : jsstring) : jsstring :=
  match s with
  | c :: s' => if is_white c then drop_white s' else s
  | [] => []
  end.

Definition trim (s : jsstring) : jsstring :=
  rev (drop_white (rev (drop_white s))).

(** The value of a digit in the given base, when it is one. *)
Definition digit_of (base : Z) (c : code_unit) : option Z :=
  let z := Z.of_N c in
  let v :=
    if (48 <=? z) && (z <=? 57) then Some (z - 48)
    else if (97 <=? z) && (z <=? 102) then Some (z - 87)
    else if (65 <=? z) && (z <=? 70) then Some (z - 55)
    else None in
  match v with
  | Some d => if d <? base then Some d else None
  | None => None
  end.

(** The longest prefix of digits, and what follows it. *)
Fixpoint take_digits (base : Z) (s : jsstring) : list Z * jsstring :=
  match s with
  | c :: s' =>
      match digit_of base c with
      | Some d => let (ds, r) := take_digits base s' in (d :: ds, r)
      | None => ([], s)
      end
  | [] => ([], [])
  end.

Definition digits_value (base : Z) (ds : list Z) : Z :=
  fold_left (fun acc d => acc * base + d) ds 0.

Definition is_nil {A} (l : list A) : bool :=
  match l with [] => true | _ => false end.

(** An optional sign: the factor and the rest. *)
Definition take_sign (s : jsstring) : Z * jsstring :=
  match s with
  | c :: s' =>
      if N.eqb c 43 then (1, s') else if N.eqb c 45 then (-1, s') else (1, s)
  | [] => (1, [])
  end.

(** NonDecimalIntegerLiteral after its two-character prefix. *)
Definition parse_radix (base : Z) (s : jsstring) : JsNum :=
  let (ds, r) := take_digits base s in
  if is_nil ds || negb (is_nil r) then NaN else num_of_Z (digits_value base ds).

(** StrUnsignedDecimalLiteral, "Infinity" apart. *)
Definition parse_decimal (s : jsstring) : option Q :=
  let (ip, r1) := take_digits 10 s in
  let (fp, r2) :=
    match r1 with
    | c :: t => if N.eqb c 46 then take_digits 10 t else ([], r1)
    | [] => ([], r1)
    end in
  if is_nil ip && is_nil fp then None
  else
    let mant :=
      (inject_Z (digits_value 10 (ip ++ fp))
       / inject_Z (10 ^ Z.of_nat (List.length fp)))%Q in
    match r2 with
    | [] => Some mant
    | c :: t =>
        if N.eqb c 101 || N.eqb c 69 then
          let (sg, t') := take_sign t in
          let (ed, r3) := take_digits 10 t' in
          if is_nil ed || negb (is_nil r3) then None
          else Some (mant * Qpower (inject_Z 10) (sg * digits_value 10 ed))%Q
        else None
    end.

Definition StringToNumber (s : jsstring) : JsNum :=
  let t := trim s in
  match t with
  | [] => num_of_Z 0
  | c0 :: c1 :: r =>
      if N.eqb c0 48 && (N.eqb c1 120 || N.eqb c1 88) then parse_radix 16 r
      else if N.eqb c0 48 && (N.eqb c1 111 || N.eqb c1 79) then parse_radix 8 r
      else if N.eqb c0 48 && (N.eqb c1 98 || N.eqb c1 66) then parse_radix 2 r
      else
        let (sg, u) := take_sign t in
        if str_eqb u (lit "Infinity") then (if sg <? 0 then NegInf else PosInf)
        else match parse_decimal u with
             | Some q => Fin (inject_Z sg * q)
             | None => NaN
             end
  | _ =>
      match parse_decimal t with
      | Some q => Fin q
      | None => NaN
      end
  end.

(** ToNumber; an object is a plain object, whose primitive value is the
    string "[object Object]". *)
Definition ToNumber (v : JsVal) : JsNum :=
  match v with
  | JUndefined => NaN
  | JNull => num_of_Z 0
  | JBool b => num_of_Z (if b then 1 else 0)
  | JNumber n => n
  | JString s => StringToNumber s
  | JObject => NaN
  end.

(** [x < y] (IsLessThan): two strings compare by code units, anything
    else as numbers; the result is undefined when a side is NaN. *)
Definition is_less_than (x y : JsVal) : option bool :=
  match x, y with
  | JString a, JString b => Some (str_ltb a b)
  | _, _ => num_ltb (ToNumber x) (ToNumber y)
  end.

(** [x > y] *)
Definition gt (x y : JsVal) : bool :=
  match is_less_than y x with
  | Some b => b
  | None => false
  end.

(** [s.length] *)
Definition str_length (s : jsstring) : JsVal :=
  JNumber (num_of_Z (Z.of_nat (List.length s))).

(** [s.split(' ')[0]]: what precedes the first space. *)
Fixpoint first_word (s : jsstring) : jsstring :=
  match s with
  | c :: s' => if N.eqb c 32 then [] else c :: first_word s'
  | [] => []
  end.

End Js.

Import Js.

(** ** Dates: utils/time.js

    A moment in UTC mode is its epoch milliseconds.  Every function of
    time.js starts from [moment().utc()], the clock reading [nowUTC]. *)

Module Time.

Definition MS_PER_MINUTE : Z := 60000.
Definition MS_PER_DAY : Z := 86400000.

(** [m.subtract(n, 'minutes')], [m.add(n, 'minutes')], [m.subtract(n, 'days')] *)
Definition subtract_minutes (m n : Z) : Z := m - n * MS_PER_MINUTE.
Definition add_minutes (m n : Z) : Z := m + n * MS_PER_MINUTE.
Definition subtract_days (m n : Z) : Z := m - n * MS_PER_DAY.

(** [m.startOf('day')] in UTC mode: the time of day is taken off. *)
Definition startOf_day (m : Z) : Z := m - m mod MS_PER_DAY.

(** [m.day()] in UTC mode: 0 is Sunday; the epoch was a Thursday. *)
Definition day (m : Z) : Z := (m / MS_PER_DAY + 4) mod 7.

(** [m.isoWeekday()]: [this.day() || 7], Monday is 1 and Sunday 7. *)
Definition isoWeekday (m : Z) : Z := if day m =? 0 then 7 else day m.

(** [m.startOf('isoWeek')]: midnight of the date minus [isoWeekday - 1] days. *)
Definition startOf_isoWeek (m : Z) : Z :=
  startOf_day m - (isoWeekday m - 1) * MS_PER_DAY.

Definition getStartOfCurrentWeekUTC (nowUTC userTimezoneOffset : Z) : Z :=
  let nowLocal := subtract_minutes nowUTC userTimezoneOffset in
  let startOfWeekLocal := startOf_isoWeek nowLocal in
  let startOfWeekUTC := add_minutes startOfWeekLocal userTimezoneOffset in
  startOfWeekUTC.

Definition getStartOfPreviousWeekUTC (nowUTC userTimezoneOffset : Z) : Z :=
  let nowLocal := subtract_minutes nowUTC userTimezoneOffset in
  let startOfWeekLocal := startOf_isoWeek nowLocal in
  let startOfWeekUTC := add_minutes startOfWeekLocal userTimezoneOffset in
  let startOfPreviousWeekUTC := subtract_days startOfWeekUTC 7 in
  startOfPreviousWeekUTC.

Definition getStartOfTodayUTC (nowUTC userTimezoneOffset : Z) : Z :=
  let nowLocal := subtract_minutes nowUTC userTimezoneOffset in
  let startOfTodayLocal := startOf_day nowLocal in
  let startOfTodayUTC := add_minutes startOfTodayLocal userTimezoneOffset in
  startOfTodayUTC.

Definition getStartOfYesterdayUTC (nowUTC userTimezoneOffset : Z) : Z :=
  let nowLocal := subtract_minutes nowUTC userTimezoneOffset in
  let startOfTodayLocal := startOf_day nowLocal in
  let startOfTodayUTC := add_minutes startOfTodayLocal userTimezoneOffset in
  let startOfYesterdayUTC := subtract_days startOfTodayUTC 1 in
  startOfYesterdayUTC.

Definition getDaysBeforeUTC (nowUTC userTimezoneOffset daysBefore : Z) : Z :=
  let nowLocal := subtract_minutes nowUTC userTimezoneOffset in
  let startOfTodayLocal := startOf_day nowLocal in
  let startOfTodayUTC := add_minutes startOfTodayLocal userTimezoneOffset in
  let daysBeforeToday := subtract_days startOfTodayUTC daysBefore in
  daysBeforeToday.

(** *** Calendar dates, to name instants in statements

    [days_from_civil y m d] is the number of days from 1970-01-01 to the
    date [y]-[m]-[d] of the proleptic Gregorian calendar, and
    [date_utc y m d hh mm] is [Date.UTC(y, m - 1, d, hh, mm)]. *)
Definition days_from_civil (y m d : Z) : Z :=
  let y' := if m <=? 2 then y - 1 else y in
  let era := y' / 400 in
  let yoe := y' - era * 400 in
  let mp := (m + 9) mod 12 in
  let doy := (153 * mp + 2) / 5 + d - 1 in
  let doe := yoe * 365 + yoe / 4 - yoe / 100 + doy in
  era * 146097 + doe - 719468.

Definition date_utc (y m d hh mm : Z) : Z :=
  days_from_civil y m d * MS_PER_DAY + hh * 3600000 + mm * MS_PER_MINUTE.

(** What the claims call local time: the wall clock of a user whose
    [getTimezoneOffset()] is [offset] shows the UTC instant [t] as the
    UTC fields of [to_local t offset]. *)
Definition to_local (t offset : Z) : Z := t - offset * MS_PER_MINUTE.

End Time.

(** ** Documents: models/messageModel.js, models/conversationModel.js *)

Definition ObjectId := N.

(** One element of [content]: [{ type, text }]. *)
Record Block := mkBlock {
  b_type : jsstring;
  b_text : jsstring
}.

Record Message := mkMessage {
  m_id : ObjectId;
  m_role : jsstring;
  m_content : list Block;
  m_conversation : ObjectId;
  m_created_at : Z;
  m_updated_at : Z
}.

Record Conversation := mkConversation {
  c_id : ObjectId;
  c_messages : list ObjectId;
  c_owner : ObjectId;
  c_created_at : Z;
  c_updated_at : Z
}.

(** A conversation whose [messages] path is populated. *)
Record Populated := mkPopulated {
  p_id : ObjectId;
  p_messages : list Message;
  p_owner : ObjectId;
  p_created_at : Z;
  p_updated_at : Z
}.

(** The fields of a user that [getChildInfoById] projects. *)
Record User := mkUser {
  u_id : ObjectId;
  u_fullName : jsstring;
  u_years : option jsstring
}.

(** ** Errors *)

Inductive JsError :=
| HttpError (status : Z) (message : jsstring) (details : option jsstring)
| TypeError (message : jsstring)
| ValidationError (message : jsstring)
| ProviderError (message : jsstring).

(** [error.message] *)
Definition error_message (e : JsError) : jsstring :=
  match e with
  | HttpError _ m _ | TypeError m | ValidationError m | ProviderError m => m
  end.

(** The status the error handler answers with (middleware/errorHandler.js):
    an HttpError carries its own, a Mongoose ValidationError is a 400,
    anything else a 500. *)
Definition error_status (e : JsError) : Z :=
  match e with
  | HttpError s _ _ => s
  | ValidationError _ => 400
  | TypeError _ | ProviderError _ => 500
  end.

(** ** The language model *)

(** An entry of the [messages] array of a chat completion request. *)
Record Turn := mkTurn {
  t_role : jsstring;
  t_content : list Block
}.

(** [completion.choices[0].message]; the API types [content] as
    [string | null]. *)
Record Reply := mkReply {
  r_role : jsstring;
  r_content : option jsstring
}.

(** ** The world *)

Record World := mkWorld {
  messages_coll : list Message;
  conversations_coll : list Conversation;
  users_coll : list User;
  next_id : ObjectId;          (* the next ObjectId the driver generates *)
  ticks : nat;                 (* how many times the clock has been read *)
  llm_log : list (list Turn)   (* the requests sent to the model, oldest first *)
}.

Definition set_messages (w : World) (l : list Message) : World :=
  mkWorld l (conversations_coll w) (users_coll w) (next_id w) (ticks w) (llm_log w).

Definition set_conversations (w : World) (l : list Conversation) : World :=
  mkWorld (messages_coll w) l (users_coll w) (next_id w) (ticks w) (llm_log w).

Definition set_next_id (w : World) (n : ObjectId) : World :=
  mkWorld (messages_coll w) (conversations_coll w) (users_coll w) n (ticks w) (llm_log w).

Definition set_ticks (w : World) (n : nat) : World :=
  mkWorld (messages_coll w) (conversations_coll w) (users_coll w) (next_id w) n (llm_log w).

Definition set_llm_log (w : World) (l : list (list Turn)) : World :=
  mkWorld (messages_coll w) (conversations_coll w) (users_coll w) (next_id w) (ticks w) l.

(** ** Computations: a value or a throw, over the world *)

Definition Result (A : Type) : Type := (JsError + A)%type.
Definition M (A : Type) : Type := World -> World * Result A.

Definition ret {A} (a : A) : M A := fun w => (w, inr a).

Definition throw {A} (e : JsError) : M A := fun w => (w, inl e).

Definition bind {A B} (c : M A) (k : A -> M B) : M B :=
  fun w =>
    match c w with
    | (w', inr a) => k a w'
    | (w', inl e) => (w', inl e)
    end.

(** [try { c } catch (error) { h error }] *)
Definition try_catch {A} (c : M A) (h : JsError -> M A) : M A :=
  fun w =>
    match c w with
    | (w', inr a) => (w', inr a)
    | (w', inl e) => h e w'
    end.

Declare Scope m_scope.
Delimit Scope m_scope with M.
Notation "x <- c ;; k" := (bind c (fun x => k))
  (at level 61, c at next level, right associativity) : m_scope.
Notation "c ;;; k" := (bind c (fun _ => k))
  (at level 61, right associativity) : m_scope.
#[local] Open Scope m_scope.

(** ** Collections *)

Definition mem (i : ObjectId) (l : list ObjectId) : bool := existsb (N.eqb i) l.

(** [$addToSet] *)
Definition addToSet (i : ObjectId) (l : list ObjectId) : list ObjectId :=
  if mem i l then l else l ++ [i].

(** The first document that matches. *)
Definition findOne {A} (p : A -> bool) (l : list A) : option A := find p l.

(** The collection with its first match replaced by [f] of it. *)
Fixpoint updateOne {A} (p : A -> bool) (f : A -> A) (l : list A) : list A :=
  match l with
  | [] => []
  | x :: l' => if p x then f x :: l' else x :: updateOne p f l'
  end.

(** [sort: { created_at: 1 }]: ascending, ties in natural order. *)
Fixpoint insert_created_at (m : Message) (l : list Message) : list Message :=
  match l with
  | [] => [m]
  | x :: l' =>
      if m_created_at m <=? m_created_at x then m :: l
      else x :: insert_created_at m l'
  end.

Definition sort_created_at (l : list Message) : list Message :=
  fold_right insert_created_at [] l.

(** [populate({ path: 'messages', options: { sort: { created_at: 1 } } })]:
    the messages whose [_id] is among the references, sorted; a reference
    to no message resolves to nothing. *)
Definition populate_messages (refs : list ObjectId) (coll : list Message)
  : list Message :=
  sort_created_at (filter (fun m => mem (m_id m) refs) coll).

Definition populate (c : Conversation) (coll : list Message) : Populated :=
  mkPopulated (c_id c) (populate_messages (c_messages c) coll)
    (c_owner c) (c_created_at c) (c_updated_at c).

(** The filter [{ _id: conversationId }]. *)
Definition has_id (conversationId : ObjectId) (c : Conversation) : bool :=
  N.eqb (c_id c) conversationId.

(** The update [{ $addToSet: { messages: messageId } }], at time [t]. *)
Definition add_reference (messageId : ObjectId) (t : Z) (c : Conversation) : Conversation :=
  mkConversation (c_id c) (addToSet messageId (c_messages c)) (c_owner c)
    (c_created_at c) t.

(** The query of [getKidStats]:
    [{ owner, created_at: { $gte, $lt }, $expr: { $gt: [{ $size: '$messages' }, 5] } }],
    with [$lt] left out when [lt] is [None]. *)
Definition stats_match (owner : ObjectId) (gte : Z) (lt : option Z)
    (c : Conversation) : bool :=
  N.eqb (c_owner c) owner
  && (gte <=? c_created_at c)
  && match lt with Some hi => c_created_at c <? hi | None => true end
  && (5 <? Z.of_nat (List.length (c_messages c))).

(** The query of [deleteOlderThan]: [{ owner, created_at: { $lt } }]. *)
Definition older_match (owner : ObjectId) (lt : Z) (c : Conversation) : bool :=
  N.eqb (c_owner c) owner && (c_created_at c <? lt).

(** [deleteMany] *)
Definition deleteMany {A} (p : A -> bool) (l : list A) : list A :=
  filter (fun x => negb (p x)) l.

(** ** Schema validation of a message (models/messageModel.js)

    [role] is required and one of the enum; the [text] of the block is
    required, which a missing value and the empty string both fail. *)
Definition role_enum : list jsstring := [lit "user"; lit "assistant"].

Definition validate_message (role : jsstring) (input : option jsstring)
  : option JsError :=
  if negb (existsb (str_eqb role) role_enum) then
    Some (ValidationError (lit "Message validation failed: role: not a valid enum value for path `role`."))
  else
    match input with
    | None | Some [] =>
        Some (ValidationError (lit "Message validation failed: content.0.text: 'Text' is required!"))
    | Some _ => None
    end.

(** ** utils/aiPrompts.js *)

Definition basePrompt : jsstring :=
  lit "You are a a little fairy called Lexi. You are a helpful assistant to children 7-12 years old for their school tasks. Avoid topics and language that are inappropriate for children. Be short and precise. Keep the conversation on educational topics and don't let the child get distracted with topics that are not school related. For any Math, use LaTex format. Don't use Markdown formatting. You shall reply in Bulgarian. ".

(** The two pieces of the Bulgarian sentence around the first name. *)
Definition namePrefix : jsstring :=
  [1044; 1077; 1090; 1077; 1090; 1086; 44; 32; 1085; 1072; 32; 1082; 1086;
   1077; 1090; 1086; 32; 1087; 1086; 1084; 1072; 1075; 1072; 1096; 32; 1089;
   1077; 32; 1082; 1072; 1079; 1074; 1072; 32]%N.

Definition nameSuffix : jsstring :=
  [46; 32; 1053; 1072; 1088; 1080; 1095; 1072; 1081; 32; 1075; 1086; 32; 1087;
   1086; 32; 1080; 1084; 1077; 32; 1087; 1086; 1085; 1103; 1082; 1086; 1075;
   1072; 44; 32; 1085; 1086; 32; 1085; 1077; 32; 1087; 1088; 1077; 1082; 1072;
   1083; 1077; 1085; 1086; 32; 1095; 1077; 1089; 1090; 1086; 46; 32]%N.

Definition setSystemPrompt (name : jsstring) : jsstring :=
  basePrompt ++ namePrefix ++ first_word name ++ nameSuffix.

(** ** The services *)

Section Backend.

(** The clock: the value of the [n]-th read of the current time. *)
Variable clock : nat -> Z.

(** [openai.chat.completions.create]: the provider's error message, or
    the message of the first choice. *)
Variable llm : list Turn -> jsstring + Reply.

(** [openai.audio.transcriptions.create] on the uploaded file: the
    provider's error message, or [response.text]. *)
Variable transcribe : jsstring -> jsstring + JsVal.

(** [Date.now()], [moment()] *)
Definition now : M Z :=
  fun w => (set_ticks w (S (ticks w)), inr (clock (ticks w))).

(** A new ObjectId. *)
Definition newObjectId : M ObjectId :=
  fun w => (set_next_id w (N.succ (next_id w)), inr (next_id w)).

Definition insert_message (m : Message) : M unit :=
  fun w => (set_messages w (messages_coll w ++ [m]), inr tt).

Definition insert_conversation (c : Conversation) : M unit :=
  fun w => (set_conversations w (conversations_coll w ++ [c]), inr tt).

(** *** services/historyService.js *)

Definition newConversation (userId : ObjectId) : M Conversation :=
  id <- newObjectId ;;
  t <- now ;;
  let c := mkConversation id [] userId t t in
  insert_conversation c ;;;
  ret c.

(** [messageModel.create] validates the document against the schema and
    saves it when it is valid; [input] is [None] for a [null]. *)
Definition newMessage (role : jsstring) (input : option jsstring)
    (conversationId : ObjectId) : M Message :=
  match validate_message role input with
  | Some e => throw e
  | None =>
      let content := [mkBlock (lit "text") (match input with Some s => s | None => [] end)] in
      id <- newObjectId ;;
      t <- now ;;
      let m := mkMessage id role content conversationId t t in
      insert_message m ;;;
      ret m
  end.

(** [findByIdAndUpdate(..., { $addToSet: { messages: messageId } }, { new: true })]
    then [populate]: [None] is the [null] that a missing conversation
    resolves to.  The update also sets [updated_at]. *)
Definition updateConversation (conversationId messageId : ObjectId)
  : M (option Populated) :=
  t <- now ;;
  fun w =>
    match findOne (has_id conversationId) (conversations_coll w) with
    | None => (w, inr None)
    | Some c =>
        (set_conversations w
           (updateOne (has_id conversationId) (add_reference messageId t)
              (conversations_coll w)),
         inr (Some (populate (add_reference messageId t c) (messages_coll w))))
    end.

Record KidStats := mkKidStats {
  currentWeekStats : nat;
  previousWeekStats : nat;
  todayStats : nat;
  yesterdayStats : nat
}.

(** [conversationModel.find(query)] *)
Definition find_conversations (p : Conversation -> bool) : M (list Conversation) :=
  fun w => (w, inr (filter p (conversations_coll w))).

Definition getKidStats (kidId : ObjectId) (timezoneOffset : Z) : M KidStats :=
  currentWeekStart <- (t <- now ;; ret (Time.getStartOfCurrentWeekUTC t timezoneOffset)) ;;
  previousWeekStart <- (t <- now ;; ret (Time.getStartOfPreviousWeekUTC t timezoneOffset)) ;;
  todayStart <- (t <- now ;; ret (Time.getStartOfTodayUTC t timezoneOffset)) ;;
  yesterdayStart <- (t <- now ;; ret (Time.getStartOfYesterdayUTC t timezoneOffset)) ;;
  currentWeekChats <- find_conversations (stats_match kidId currentWeekStart None) ;;
  previousWeekChats <-
    find_conversations (stats_match kidId previousWeekStart (Some currentWeekStart)) ;;
  todayChats <- find_conversations (stats_match kidId todayStart None) ;;
  yesterdayChats <-
    find_conversations (stats_match kidId yesterdayStart (Some todayStart)) ;;
  ret (mkKidStats (List.length currentWeekChats) (List.length previousWeekChats)
         (List.length todayChats) (List.length yesterdayChats)).

Definition deleteOlderThan (kidId : ObjectId) (timezoneOffset daysBefore : Z) : M unit :=
  t <- now ;;
  let daysBeforeDateUTC := Time.getDaysBeforeUTC t timezoneOffset daysBefore in
  fun w =>
    (set_conversations w
       (deleteMany (older_match kidId daysBeforeDateUTC) (conversations_coll w)),
     inr tt).

(** *** services/chatService.js *)

(** [{ role: message.role, content: [{ type: message.content[0].type,
    text: message.content[0].text }] }] *)
Definition to_turn (message : Message) : M Turn :=
  match m_content message with
  | b :: _ => ret (mkTurn (m_role message) [mkBlock (b_type b) (b_text b)])
  | [] => throw (TypeError (lit "Cannot read properties of undefined (reading 'type')"))
  end.

(** [array.map(f)] for an [f] that may throw. *)
Fixpoint mapM {A B} (f : A -> M B) (l : list A) : M (list B) :=
  match l with
  | [] => ret []
  | x :: l' => y <- f x ;; ys <- mapM f l' ;; ret (y :: ys)
  end.

(** [array.slice(-n)]: the last [n] elements, all of them when there are
    fewer. *)
Definition slice_last {A} (n : nat) (l : list A) : list A :=
  skipn (List.length l - n) l.

(** The call of the model, logged. *)
Definition create_completion (messages : list Turn) : M Reply :=
  fun w =>
    let w' := set_llm_log w (llm_log w ++ [messages]) in
    match llm messages with
    | inl msg => (w', inl (ProviderError msg))
    | inr r => (w', inr r)
    end.

Record ChatResponse := mkChatResponse {
  message : Reply;
  conversationId : ObjectId
}.

(** [a || b] on strings *)
Definition str_or (a b : jsstring) : jsstring := if is_nil a then b else a.

Definition chatWithLexi (textUserInput : jsstring) (conversationId : ObjectId)
    (user : User) : M ChatResponse :=
  try_catch
    (let systemPrompt := setSystemPrompt (u_fullName user) in
     newUserMessage <- newMessage (lit "user") (Some textUserInput) conversationId ;;
     updatedConversation <- updateConversation conversationId (m_id newUserMessage) ;;
     match updatedConversation with
     | None => throw (TypeError (lit "Cannot read properties of null (reading 'messages')"))
     | Some updated =>
         currentConversation <- mapM to_turn (p_messages updated) ;;
         let currentConversation := slice_last 20 currentConversation in
         completion <-
           create_completion
             (mkTurn (lit "system") [mkBlock (lit "text") systemPrompt]
              :: currentConversation) ;;
         let response := mkChatResponse completion conversationId in
         newAssistantMessage <-
           newMessage (r_role (message response)) (r_content (message response))
             conversationId ;;
         updateConversation conversationId (m_id newAssistantMessage) ;;;
         ret response
     end)
    (fun error =>
       throw (HttpError 500 (lit "Error during AI response generation.")
                (Some (str_or (error_message error) (lit "OpenAI API error."))))).

(** *** services/authService.js *)

Definition getChildInfoById (userId : ObjectId) : M User :=
  fun w =>
    match findOne (fun u => N.eqb (u_id u) userId) (users_coll w) with
    | Some user => (w, inr user)
    | None => (w, inl (HttpError 404 (lit "User not found!") None))
    end.

(** *** services/sttService.js *)

Definition transcribeAudio (audioPath : jsstring) : M JsVal :=
  match transcribe audioPath with
  | inl msg => throw (ProviderError msg)
  | inr text => ret text
  end.

(** *** controllers/chatController.js

    A handler returns the body of its 200 answer, or throws what it
    hands to [next].  [conversationId] is [None] when the body has none;
    one that is present is a well-formed ObjectId. *)

(** [v === ''] *)
Definition is_empty_string (v : JsVal) : bool :=
  match v with
  | JString [] => true
  | _ => false
  end.

(** [v.length] *)
Definition get_length (v : JsVal) : M JsVal :=
  match v with
  | JString s => ret (str_length s)
  | JUndefined => throw (TypeError (lit "Cannot read properties of undefined (reading 'length')"))
  | JNull => throw (TypeError (lit "Cannot read properties of null (reading 'length')"))
  | _ => ret JUndefined
  end.

(** The string that a value is, once [typeof v === 'string'] is known. *)
Definition as_string (v : JsVal) : jsstring :=
  match v with
  | JString s => s
  | _ => []
  end.

Record TextRequest := mkTextRequest {
  text_userInput : JsVal;
  text_conversationId : option ObjectId;
  text_userId : ObjectId
}.

Definition post_text (req : TextRequest) : M (option jsstring) :=
  let userInput := text_userInput req in
  match text_conversationId req with
  | None => throw (HttpError 400 (lit "Conversation ID is not provided.") None)
  | Some conversationId =>
      if negb (str_eqb (typeof userInput) (lit "string")) || is_empty_string userInput
      then throw (HttpError 400 (lit "Bad Request") (Some (lit "Invalid user input")))
      else
        len <- get_length userInput ;;
        if gt len (JNumber (num_of_Z 4096))
        then throw (HttpError 400 (lit "User input is too long.")
                      (Some (lit "The maximum length is 4096 characters.")))
        else
          user <- getChildInfoById (text_userId req) ;;
          textChatResponse <- chatWithLexi (as_string userInput) conversationId user ;;
          ret (r_content (message textChatResponse))
  end.

Record VoiceRequest := mkVoiceRequest {
  voice_conversationId : option ObjectId;
  voice_file : option jsstring;      (* [req.file.path] *)
  voice_userId : ObjectId
}.

(** [!content || typeof content !== 'string'] on a [string | null] *)
Definition invalid_answer (content : option jsstring) : bool :=
  match content with
  | None | Some [] => true
  | Some _ => false
  end.

Definition post_voice (req : VoiceRequest) : M (jsstring * jsstring) :=
  match voice_conversationId req with
  | None => throw (HttpError 400 (lit "Conversation ID is not provided.") None)
  | Some conversationId =>
      match voice_file req with
      | None => throw (HttpError 400 (lit "No audio file provided.") None)
      | Some path =>
          textUserInput <- transcribeAudio path ;;
          if negb (str_eqb (typeof textUserInput) (lit "string"))
             || is_empty_string textUserInput
          then throw (HttpError 400 (lit "Invalid voice content.")
                        (Some (lit "Voice input was not properly recognized.")))
          else
            len <- get_length textUserInput ;;
            if gt (JString (typeof len)) (JNumber (num_of_Z 1000))
            then throw (HttpError 400 (lit "User question is too long.")
                          (Some (lit "The question text content is limited to 1000 characters.")))
            else
              user <- getChildInfoById (voice_userId req) ;;
              textChatResponse <-
                chatWithLexi (as_string textUserInput) conversationId user ;;
              if invalid_answer (r_content (message textChatResponse))
              then throw (HttpError 400 (lit "Invalid AI response.")
                            (Some (lit "AI returned an invalid response.")))
              else
                ret (as_string textUserInput,
                     match r_content (message textChatResponse) with
                     | Some s => s
                     | None => []
                     end)
      end
  end.

End Backend.

Arguments lit : simpl never.

(** ** Notions the properties are stated with *)

(** The conversation with a given id, as [findByIdAndUpdate] finds it. *)
Definition find_conversation (w : World) (conversationId : ObjectId)
  : option Conversation :=
  findOne (has_id conversationId) (conversations_coll w).

(** The message count of a conversation: the size of its reference list. *)
Definition message_count (w : World) (conversationId : ObjectId) : nat :=
  match find_conversation w conversationId with
  | Some c => List.length (c_messages c)
  | None => 0
  end.

(** Chronological order. *)
Definition created_le (a b : Message) : Prop := m_created_at a <= m_created_at b.

(** How many messages of a list have a given id. *)
Definition occurrences (messageId : ObjectId) (l : list Message) : nat :=
  List.length (filter (fun m => N.eqb (m_id m) messageId) l).

(** The turn a stored message is sent as: its role and its first block. *)
Definition turn_of (m : Message) : Turn := mkTurn (m_role m) (firstn 1 (m_content m)).

Definition system_turn (user : User) : Turn :=
  mkTurn (lit "system") [mkBlock (lit "text") (setSystemPrompt (u_fullName user))].

(** A world as the services build it: ids come from the generator, so
    every stored id and every reference is below the next one; message
    ids are distinct; a message has a first block. *)
Record wf_world (w : World) : Prop := mk_wf {
  wf_message_ids :
    Forall (fun m => (m_id m < next_id w)%N) (messages_coll w);
  wf_references :
    Forall (fun c => Forall (fun i => (i < next_id w)%N) (c_messages c))
      (conversations_coll w);
  wf_distinct : NoDup (map m_id (messages_coll w));
  wf_content : Forall (fun m => m_content m <> []) (messages_coll w)
}.

(** The four figures of the statistics. *)
Inductive Bucket := CurrentWeek | PreviousWeek | Today | Yesterday.


(** The range of creation times of a bucket, [lo] included and [hi]
    excluded when there is one, for a call of [getKidStats] that starts
    at the given read of the clock. *)
Definition bucket_range (clock : nat -> Z) (n : nat) (timezoneOffset : Z)
    (b : Bucket) : Z * option Z :=
  let currentWeekStart := Time.getStartOfCurrentWeekUTC (clock n) timezoneOffset in
  let previousWeekStart := Time.getStartOfPreviousWeekUTC (clock (S n)) timezoneOffset in
  let todayStart := Time.getStartOfTodayUTC (clock (S (S n))) timezoneOffset in
  let yesterdayStart := Time.getStartOfYesterdayUTC (clock (S (S (S n)))) timezoneOffset in
  match b with
  | CurrentWeek => (currentWeekStart, None)
  | PreviousWeek => (previousWeekStart, Some currentWeekStart)
  | Today => (todayStart, None)
  | Yesterday => (yesterdayStart, Some todayStart)
  end.

Definition in_range (r : Z * option Z) (t : Z) : Prop :=
  fst r <= t /\ match snd r with Some hi => t < hi | None => True end.

(** A client that appends the given message ids one after the other and
    keeps the last answer of the store. *)
Fixpoint append_all (clock : nat -> Z) (conversationId : ObjectId)
    (ids : list ObjectId) (last : option Populated) : M (option Populated) :=
  match ids with
  | [] => ret last
  | i :: ids' =>
      r <- updateConversation clock conversationId i ;;
      append_all clock conversationId ids' r
  end.

(** The message that [chatWithLexi] stores for the user's text. *)
Definition user_message (clock : nat -> Z) (w : World) (text : jsstring)
    (conversationId : ObjectId) : Message :=
  mkMessage (next_id w) (lit "user") [mkBlock (lit "text") text] conversationId
    (clock (ticks w)) (clock (ticks w)).

(** What [chatWithLexi] throws, whatever it caught. *)
Definition chat_error (details : jsstring) : JsError :=
  HttpError 500 (lit "Error during AI response generation.")
    (Some (str_or details (lit "OpenAI API error."))).

(** The reference list after the ids have been added in turn. *)
Definition refs_after (ids refs : list ObjectId) : list ObjectId :=
  fold_left (fun r i => addToSet i r) ids refs.

(** A computation that only ever adds messages. *)
Definition grows {A} (c : M A) : Prop :=
  forall w, exists rest, messages_coll (fst (c w)) = messages_coll w ++ rest.

(** ** Sample data *)

Module Sample.

Definition clock (n : nat) : Z := Time.date_utc 2024 6 12 8 0 + 1000 * Z.of_nat n.

Definition kid : User := mkUser 7%N (lit "Ivan Petrov") None.

Definition answering (_ : list Turn) : jsstring + Reply :=
  inr (mkReply (lit "assistant") (Some (lit "681"))).

Definition silent (_ : list Turn) : jsstring + Reply :=
  inr (mkReply (lit "assistant") None).

Definition failing (_ : list Turn) : jsstring + Reply :=
  inl (lit "Rate limit reached").

Definition hearing (s : jsstring) (_ : jsstring) : jsstring + JsVal :=
  inr (JString s).

(** One kid, one empty conversation (id 100), no message. *)
Definition world : World :=
  mkWorld [] [mkConversation 100%N [] 7%N (Time.date_utc 2024 6 12 7 0) (Time.date_utc 2024 6 12 7 0)]
    [kid] 101%N 0%nat [].

Definition msg (id : ObjectId) (created : Z) : Message :=
  mkMessage id (lit "user") [mkBlock (lit "text") (lit "Q")] 100%N created created.

(** Two messages stored out of chronological order, none referenced yet. *)
Definition world2 : World :=
  mkWorld [msg 101%N 5000; msg 102%N 3000]
    [mkConversation 100%N [] 7%N (Time.date_utc 2024 6 12 7 0) (Time.date_utc 2024 6 12 7 0)]
    [kid] 103%N 0%nat [].


(** Twenty messages, created one second apart, all referenced. *)
Definition world20 : World :=
  mkWorld (map (fun n => msg (N.of_nat n) (1000 * Z.of_nat n)) (seq 1 20))
    [mkConversation 100%N (map N.of_nat (seq 1 20)) 7%N 0 0] [kid] 101%N 0%nat [].

End Sample.

(** ** More of the controllers and services *)

(** [!!v] *)
Definition truthy (v : JsVal) : bool :=
  match v with
  | JUndefined | JNull => false
  | JBool b => b
  | JNumber NaN => false
  | JNumber (Fin q) => negb (Qeq_bool q 0)
  | JNumber _ => true
  | JString s => negb (is_nil s)
  | JObject => true
  end.

(** *** services/ttsService.js

    [speech] is [openai.audio.speech.create] followed by the read of its
    bytes: the provider's error message, or the audio.  A result [inl m]
    of [generateTTS] is the plain [new Error(m)] that it throws. *)

Definition Audio := list N.

Definition generateTTS (speech : jsstring -> jsstring + Audio) (text : JsVal)
  : jsstring + Audio :=
  let attempt :=
    if negb (truthy text) || negb (str_eqb (typeof text) (lit "string"))
    then inl (lit "Invalid input text for TTS")
    else if gt (str_length (as_string text)) (JNumber (num_of_Z 4096))
    then inl (lit "Input text for TTS is too long")
    else speech (as_string text) in
  match attempt with
  | inl _ => inl (lit "Failed to generate TTS audio")
  | inr buffer => inr buffer
  end.

(** What a handler hands to [next]: one of the errors above, or a plain
    [Error]. *)
Inductive Thrown :=
| Known (e : JsError)
| PlainError (message : jsstring).

(** The status the error handler answers with: a plain [Error] has no
    [statusCode], so it is a 500. *)
Definition thrown_status (t : Thrown) : Z :=
  match t with
  | Known e => error_status e
  | PlainError _ => 500
  end.

(** *** Dates that are not valid

    A JavaScript [Date] holds a time value of at most [MAX_TIME]
    milliseconds on either side of the epoch; [setTime], [setUTCDate] and
    [Date.UTC] give [NaN] beyond it, and every later operation of moment
    keeps the [NaN], so that [toDate()] is an Invalid Date.  [Time] above
    computes on all of [Z]; here a moment is [Some] time value, or [None]
    once one step has left the range. *)
Module Dated.

Definition MAX_TIME : Z := 8640000000000000.

Definition in_range (t : Z) : bool := (- MAX_TIME <=? t) && (t <=? MAX_TIME).

(** [moment(t)] *)
Definition make (t : Z) : option Z := if in_range t then Some t else None.

(** One operation of moment, [f] being what it computes in range. *)
Definition apply (f : Z -> Z) (m : option Z) : option Z :=
  match m with
  | Some t => make (f t)
  | None => None
  end.

Definition getStartOfCurrentWeekUTC (now userTimezoneOffset : Z) : option Z :=
  let nowUTC := make now in
  let nowLocal := apply (fun m => Time.subtract_minutes m userTimezoneOffset) nowUTC in
  let startOfWeekLocal := apply Time.startOf_isoWeek nowLocal in
  let startOfWeekUTC :=
    apply (fun m => Time.add_minutes m userTimezoneOffset) startOfWeekLocal in
  startOfWeekUTC.

Definition getStartOfPreviousWeekUTC (now userTimezoneOffset : Z) : option Z :=
  let nowUTC := make now in
  let nowLocal := apply (fun m => Time.subtract_minutes m userTimezoneOffset) nowUTC in
  let startOfWeekLocal := apply Time.startOf_isoWeek nowLocal in
  let startOfWeekUTC :=
    apply (fun m => Time.add_minutes m userTimezoneOffset) startOfWeekLocal in
  let startOfPreviousWeekUTC := apply (fun m => Time.subtract_days m 7) startOfWeekUTC in
  startOfPreviousWeekUTC.

Definition getStartOfTodayUTC (now userTimezoneOffset : Z) : option Z :=
  let nowUTC := make now in
  let nowLocal := apply (fun m => Time.subtract_minutes m userTimezoneOffset) nowUTC in
  let startOfTodayLocal := apply Time.startOf_day nowLocal in
  let startOfTodayUTC :=
    apply (fun m => Time.add_minutes m userTimezoneOffset) startOfTodayLocal in
  startOfTodayUTC.

Definition getStartOfYesterdayUTC (now userTimezoneOffset : Z) : option Z :=
  let nowUTC := make now in
  let nowLocal := apply (fun m => Time.subtract_minutes m userTimezoneOffset) nowUTC in
  let startOfTodayLocal := apply Time.startOf_day nowLocal in
  let startOfTodayUTC :=
    apply (fun m => Time.add_minutes m userTimezoneOffset) startOfTodayLocal in
  let startOfYesterdayUTC := apply (fun m => Time.subtract_days m 1) startOfTodayUTC in
  startOfYesterdayUTC.

Definition getDaysBeforeUTC (now userTimezoneOffset daysBefore : Z) : option Z :=
  let nowUTC := make now in
  let nowLocal := apply (fun m => Time.subtract_minutes m userTimezoneOffset) nowUTC in
  let startOfTodayLocal := apply Time.startOf_day nowLocal in
  let startOfTodayUTC :=
    apply (fun m => Time.add_minutes m userTimezoneOffset) startOfTodayLocal in
  let daysBeforeToday := apply (fun m => Time.subtract_days m daysBefore) startOfTodayUTC in
  daysBeforeToday.

Definition valid (d : option Z) : bool :=
  match d with
  | Some _ => true
  | None => false
  end.

End Dated.

(** What the statistics handler hands to [next]: one of the errors above,
    or the [CastError] with which Mongoose refuses a query whose date is
    an Invalid Date ([kind] is ['date'], [path] the field of the query).
    The error handler has no entry for it: it is answered as a 500. *)
Inductive StatsThrown :=
| Handled (e : JsError)
| CastError (kind path : jsstring).

Definition stats_thrown_status (t : StatsThrown) : Z :=
  match t with
  | Handled e => error_status e
  | CastError _ _ => 500
  end.

Definition invalid_date : StatsThrown := CastError (lit "date") (lit "created_at").

Section Handlers.

Variable clock : nat -> Z.
Variable llm : list Turn -> jsstring + Reply.
Variable transcribe : jsstring -> jsstring + JsVal.
Variable speech : jsstring -> jsstring + Audio.

(** *** controllers/chatController.js, continued *)

(** [GET /start]: the id of a new conversation of the user. *)
Definition get_start (userId : ObjectId) : M ObjectId :=
  conversation <- newConversation clock userId ;;
  ret (c_id conversation).

(** [POST /buffer], up to the text that is handed to [generateTTS]. *)
Definition buffer_answer (req : VoiceRequest) : M jsstring :=
  match voice_conversationId req with
  | None => throw (HttpError 400 (lit "Conversation ID is not provided.") None)
  | Some conversationId =>
      match voice_file req with
      | None => throw (HttpError 400 (lit "No audio file provided.") None)
      | Some path =>
          textUserInput <- transcribeAudio transcribe path ;;
          if negb (str_eqb (typeof textUserInput) (lit "string"))
             || is_empty_string textUserInput
          then throw (HttpError 400 (lit "Bad Request") (Some (lit "Invalid user input")))
          else
            user <- getChildInfoById (voice_userId req) ;;
            textChatResponse <-
              chatWithLexi clock llm (as_string textUserInput) conversationId user ;;
            if invalid_answer (r_content (message textChatResponse))
            then throw (HttpError 400 (lit "Invalid TTS input.")
                          (Some (lit "TTS input must be a string.")))
            else
              let content :=
                match r_content (message textChatResponse) with
                | Some s => s
                | None => []
                end in
              if gt (str_length content) (JNumber (num_of_Z 4096))
              then throw (HttpError 400 (lit "TTS input is too long.")
                            (Some (lit "The maximum length is 4096 characters.")))
              else ret content
      end
  end.

(** [POST /buffer]: the audio of the answer. *)
Definition post_buffer (req : VoiceRequest) : World -> World * (Thrown + Audio) :=
  fun w =>
    match buffer_answer req w with
    | (w', inl e) => (w', inl (Known e))
    | (w', inr content) =>
        match generateTTS speech (JString content) with
        | inl m => (w', inl (PlainError m))
        | inr audioResponse => (w', inr audioResponse)
        end
    end.

(** *** controllers/authController.js: [POST /get-stats/:kidId]

    [timezoneOffset] is the integer that [getTimezoneOffset()] gives, or
    [None] when the body has none; the handler does not bound it.
    [getKidTargets] only reads the users: it is a function of the world.

    [getKidStats] and [deleteOlderThan] above are the two services on
    valid Dates.  The handler runs them when every boundary they compute
    is one; otherwise the first query that is given an Invalid Date
    throws, after the clock reads that come before it, and nothing is
    counted or deleted. *)

Variable Targets : Type.
Variable getKidTargets : ObjectId -> ObjectId -> World -> Result Targets.

Record StatsRequest := mkStatsRequest {
  stats_kidId : ObjectId;           (* [req.params.kidId] *)
  stats_userId : ObjectId;          (* [req.user.userId] *)
  stats_timezoneOffset : option Z   (* [req.body.timezoneOffset] *)
}.

(** [!timezoneOffset] *)
Definition no_offset (timezoneOffset : option Z) : bool :=
  match timezoneOffset with
  | None => true
  | Some z => z =? 0
  end.

(** The four boundaries of [getKidStats], read at the clock reads [n] to
    [n + 3], are valid Dates. *)
Definition stats_dates_valid (n : nat) (timezoneOffset : Z) : bool :=
  Dated.valid (Dated.getStartOfCurrentWeekUTC (clock n) timezoneOffset)
  && Dated.valid (Dated.getStartOfPreviousWeekUTC (clock (1 + n)) timezoneOffset)
  && Dated.valid (Dated.getStartOfTodayUTC (clock (2 + n)) timezoneOffset)
  && Dated.valid (Dated.getStartOfYesterdayUTC (clock (3 + n)) timezoneOffset).

(** The cutoff of [deleteOlderThan], read at the clock read [n], is a
    valid Date. *)
Definition sweep_date_valid (n : nat) (timezoneOffset daysBefore : Z) : bool :=
  Dated.valid (Dated.getDaysBeforeUTC (clock n) timezoneOffset daysBefore).

Definition post_get_stats (req : StatsRequest)
  : World -> World * (StatsThrown + Targets * KidStats) :=
  fun w =>
    let kidId := stats_kidId req in
    let requestUserId := stats_userId req in
    if no_offset (stats_timezoneOffset req)
    then (w, inl (Handled (HttpError 400 (lit "timezoneOffset not provided.") None)))
    else
      let timezoneOffset :=
        match stats_timezoneOffset req with Some z => z | None => 0 end in
      match getKidTargets requestUserId kidId w with
      | inl e => (w, inl (Handled e))
      | inr targets =>
          if negb (stats_dates_valid (ticks w) timezoneOffset)
          then (set_ticks w (4 + ticks w), inl invalid_date)
          else
            match getKidStats clock kidId timezoneOffset w with
            | (w1, inl e) => (w1, inl (Handled e))
            | (w1, inr stats) =>
                if negb (sweep_date_valid (ticks w1) timezoneOffset 15)
                then (set_ticks w1 (1 + ticks w1), inl invalid_date)
                else
                  match deleteOlderThan clock kidId timezoneOffset 15 w1 with
                  | (w2, inl e) => (w2, inl (Handled e))
                  | (w2, inr _) => (w2, inr (targets, stats))
                  end
            end
      end.

End Handlers.

(** ** More notions *)

(** A message as the schema admits it: a role of the enum and one text
    block that is not empty. *)
Definition schema_ok (m : Message) : Prop :=
  In (m_role m) role_enum
  /\ exists text, m_content m = [mkBlock (lit "text") text] /\ text <> [].

(** The message that [chatWithLexi] stores for the reply of the model. *)
Definition assistant_message (clock : nat -> Z) (w : World) (reply : Reply)
    (conversationId : ObjectId) : Message :=
  mkMessage (N.succ (next_id w)) (r_role reply)
    [mkBlock (lit "text") (match r_content reply with Some s => s | None => [] end)]
    conversationId (clock (S (S (ticks w)))) (clock (S (S (ticks w)))).

(** The history that the store returns once the user's message is
    appended to the conversation [c]. *)
Definition history_of (clock : nat -> Z) (w : World) (text : jsstring)
    (conversationId : ObjectId) (c : Conversation) : list Message :=
  populate_messages (addToSet (next_id w) (c_messages c))
    (messages_coll w ++ [user_message clock w text conversationId]).

(** The request that a turn sends to the model. *)
Definition request_of (clock : nat -> Z) (w : World) (text : jsstring)
    (conversationId : ObjectId) (user : User) (c : Conversation) : list Turn :=
  system_turn user
  :: slice_last 20 (map turn_of (history_of clock w text conversationId c)).

(** The world once the user's message is stored and referenced, with
    the given log of requests. *)
Definition user_turn_recorded (clock : nat -> Z) (w : World) (text : jsstring)
    (conversationId : ObjectId) (log : list (list Turn)) : World :=
  mkWorld (messages_coll w ++ [user_message clock w text conversationId])
    (updateOne (has_id conversationId)
       (add_reference (next_id w) (clock (S (ticks w)))) (conversations_coll w))
    (users_coll w) (N.succ (next_id w)) (S (S (ticks w))) log.

(** The world once the reply is stored and referenced too. *)
Definition both_turns_recorded (clock : nat -> Z) (w : World) (text : jsstring)
    (conversationId : ObjectId) (reply : Reply) (log : list (list Turn)) : World :=
  mkWorld
    ((messages_coll w ++ [user_message clock w text conversationId])
     ++ [assistant_message clock w reply conversationId])
    (updateOne (has_id conversationId)
       (add_reference (N.succ (next_id w)) (clock (S (S (S (ticks w))))))
       (updateOne (has_id conversationId)
          (add_reference (next_id w) (clock (S (ticks w)))) (conversations_coll w)))
    (users_coll w) (N.succ (N.succ (next_id w))) (S (S (S (S (ticks w))))) log.

(** The five ways a turn ends. *)
Inductive ChatOutcome (clock : nat -> Z) (llm : list Turn -> jsstring + Reply)
    (text : jsstring) (conversationId : ObjectId) (user : User) (w : World)
  : World * Result ChatResponse -> Prop :=
| Refused_text (details : jsstring) :
    text = [] ->
    ChatOutcome clock llm text conversationId user w (w, inl (chat_error details))
| No_conversation :
    text <> [] ->
    find_conversation w conversationId = None ->
    ChatOutcome clock llm text conversationId user w
      (mkWorld (messages_coll w ++ [user_message clock w text conversationId])
         (conversations_coll w) (users_coll w) (N.succ (next_id w))
         (S (S (ticks w))) (llm_log w),
       inl (chat_error (lit "Cannot read properties of null (reading 'messages')")))
| Broken_history (c : Conversation) :
    text <> [] ->
    find_conversation w conversationId = Some c ->
    ~ Forall (fun m => m_content m <> []) (history_of clock w text conversationId c) ->
    ChatOutcome clock llm text conversationId user w
      (user_turn_recorded clock w text conversationId (llm_log w),
       inl (chat_error (lit "Cannot read properties of undefined (reading 'type')")))
| No_reply (c : Conversation) (details : jsstring) :
    text <> [] ->
    find_conversation w conversationId = Some c ->
    Forall (fun m => m_content m <> []) (history_of clock w text conversationId c) ->
    (llm (request_of clock w text conversationId user c) = inl details
     \/ exists reply e,
          llm (request_of clock w text conversationId user c) = inr reply
          /\ validate_message (r_role reply) (r_content reply) = Some e
          /\ details = error_message e) ->
    ChatOutcome clock llm text conversationId user w
      (user_turn_recorded clock w text conversationId
         (llm_log w ++ [request_of clock w text conversationId user c]),
       inl (chat_error details))
| Answered (c : Conversation) (reply : Reply) :
    text <> [] ->
    find_conversation w conversationId = Some c ->
    Forall (fun m => m_content m <> []) (history_of clock w text conversationId c) ->
    llm (request_of clock w text conversationId user c) = inr reply ->
    validate_message (r_role reply) (r_content reply) = None ->
    ChatOutcome clock llm text conversationId user w
      (both_turns_recorded clock w text conversationId reply
         (llm_log w ++ [request_of clock w text conversationId user c]),
       inr (mkChatResponse reply conversationId)).

(** * Properties *)

#[local] Open Scope m_scope.

(** ** JavaScript values *)

Lemma str_eqb_spec (a b : jsstring) : reflect (a = b) (str_eqb a b).
Proof.
  revert b; induction a as [|x a IH]; intros [|y b]; simpl;
    try (constructor; congruence).
  destruct (N.eqb_spec x y) as [->|Hxy]; simpl.
  - destruct (IH b) as [->|Hab]; constructor; congruence.
  - constructor; congruence.
Qed.

Lemma gt_numbers (a b : Z) :
  gt (JNumber (num_of_Z a)) (JNumber (num_of_Z b)) = (b <? a).
Proof.
  unfold gt, is_less_than, ToNumber, num_of_Z, num_ltb, Qle_bool. simpl.
  rewrite !Z.mul_1_r.
  destruct (Z.leb_spec a b), (Z.ltb_spec b a); simpl; try reflexivity; lia.
Qed.

(** [typeof v !== 'string' || v === ''] holds of everything but a
    non-empty string. *)
Lemma string_guard_spec (v : JsVal) :
  negb (str_eqb (typeof v) (lit "string")) || is_empty_string v = false
  <-> exists s, v = JString s /\ s <> [].
Proof.
  destruct v as [| | b | n | s |]; simpl;
    try (split; [discriminate | intros (s' & H & _); discriminate]).
  destruct s as [|c s]; simpl.
  - split; [discriminate | intros (s' & H & Hn); congruence].
  - split; [intros _; eexists; split; [reflexivity | discriminate] | reflexivity].
Qed.

(** The comparison with a number converts a string: a numeric string
    is compared by its value, any other string is NaN and compares false. *)
Example gt_numeric_string :
  gt (JString (lit "2000")) (JNumber (num_of_Z 1000)) = true
  /\ gt (JString (lit " 0x3e9 ")) (JNumber (num_of_Z 1000)) = true
  /\ gt (JString (lit "999")) (JNumber (num_of_Z 1000)) = false
  /\ gt (JString (lit "1e3")) (JNumber (num_of_Z 1000)) = false
  /\ gt (JString (lit "Infinity")) (JNumber (num_of_Z 1000)) = true
  /\ gt (JString (lit "2000 characters")) (JNumber (num_of_Z 1000)) = false.
Proof. repeat split; reflexivity. Qed.

Example StringToNumber_samples :
  StringToNumber (lit "number") = NaN
  /\ StringToNumber (lit "") = num_of_Z 0
  /\ StringToNumber (lit "0x1F") = num_of_Z 31
  /\ StringToNumber (lit "-Infinity") = NegInf
  /\ StringToNumber (lit ".") = NaN
  /\ StringToNumber (lit "1e") = NaN.
Proof. repeat split; reflexivity. Qed.

(** The test of the voice handler, [typeof textUserInput.length > 1000],
    compares the string that [typeof] yields with 1000: it is false of
    every value. *)
Lemma typeof_never_gt (v : JsVal) (z : Z) :
  gt (JString (typeof v)) (JNumber (num_of_Z z)) = false.
Proof. destruct v; reflexivity. Qed.

(** ** Dates *)

Section TimeFacts.

Import Time.

Example date_utc_samples :
  date_utc 1970 1 1 0 0 = 0
  /\ date_utc 2000 3 1 0 0 = 951868800000
  /\ date_utc 2024 6 12 8 0 = 1718179200000
  /\ day (date_utc 2024 6 12 8 0) = 3
  /\ isoWeekday (date_utc 2024 6 9 12 0) = 7
  /\ startOf_isoWeek (date_utc 2024 6 9 12 0) = date_utc 2024 6 3 0 0.
Proof. repeat split; reflexivity. Qed.

Lemma to_local_add_minutes (t offset : Z) :
  to_local (add_minutes t offset) offset = t.
Proof. unfold to_local, add_minutes. lia. Qed.

Lemma startOf_day_spec (m : Z) :
  startOf_day m mod MS_PER_DAY = 0
  /\ startOf_day m <= m < startOf_day m + MS_PER_DAY.
Proof.
  unfold startOf_day, MS_PER_DAY.
  pose proof (Z.mod_pos_bound m 86400000 ltac:(lia)) as Hb.
  split; [| lia].
  rewrite (Z.div_mod m 86400000) at 1 by lia.
  replace (86400000 * (m / 86400000) + m mod 86400000 - m mod 86400000)
    with ((m / 86400000) * 86400000) by lia.
  apply Z.mod_mul. lia.
Qed.

Lemma startOf_day_div (m : Z) : startOf_day m = (m / MS_PER_DAY) * MS_PER_DAY.
Proof.
  unfold startOf_day, MS_PER_DAY.
  pose proof (Z.div_mod m 86400000 ltac:(lia)). lia.
Qed.

Lemma isoWeekday_range (m : Z) : 1 <= isoWeekday m <= 7.
Proof.
  unfold isoWeekday, day.
  pose proof (Z.mod_pos_bound (m / MS_PER_DAY + 4) 7 ltac:(lia)).
  destruct (Z.eqb_spec ((m / MS_PER_DAY + 4) mod 7) 0); lia.
Qed.

(** The start of the ISO week of [m] is a midnight, a Monday, and the
    latest such instant that is not after [m]. *)
Lemma startOf_isoWeek_spec (m : Z) :
  let s := startOf_isoWeek m in
  s mod MS_PER_DAY = 0 /\ isoWeekday s = 1 /\ s <= m < s + 7 * MS_PER_DAY.
Proof.
  cbv zeta. unfold startOf_isoWeek.
  rewrite startOf_day_div.
  pose proof (isoWeekday_range m) as Hr.
  set (d := m / MS_PER_DAY) in *.
  set (k := isoWeekday m) in *.
  replace (d * MS_PER_DAY - (k - 1) * MS_PER_DAY) with ((d - (k - 1)) * MS_PER_DAY) by lia.
  assert (HD : 0 < MS_PER_DAY) by (unfold MS_PER_DAY; lia).
  split; [apply Z.mod_mul; lia |].
  split.
  - unfold isoWeekday at 1, day.
    rewrite Z.div_mul by lia.
    assert (Hk : (d + 4 - k) mod 7 = 0).
    { subst k. unfold isoWeekday, day. fold d.
      destruct (Z.eqb_spec ((d + 4) mod 7) 0) as [H0|H0].
      - replace (d + 4 - 7) with (d + 4 + (-1) * 7) by lia.
        rewrite Z.mod_add by lia. exact H0.
      - rewrite Zminus_mod, Zmod_mod, Z.sub_diag. reflexivity. }
    replace (d - (k - 1) + 4) with (1 + (d + 4 - k)) by lia.
    rewrite Zplus_mod, Hk. reflexivity.
  - pose proof (Z.div_mod m MS_PER_DAY ltac:(lia)) as Hm.
    pose proof (Z.mod_pos_bound m MS_PER_DAY HD) as Hb.
    fold d in Hm. nia.
Qed.

End TimeFacts.

(** C7. With [timezoneOffset = -120] (UTC+2) and now Wednesday 2024-06-12
    10:00 local (08:00 UTC), the start of the current week is
    2024-06-09 22:00 UTC, which is Monday 2024-06-10 00:00 local; and for
    every clock reading and offset the start of the current week, seen
    in local time, is a midnight, a Monday, and at most seven days
    before the local now: week boundaries are ISO weeks computed in
    local time and converted back to UTC. *)
Theorem current_week_start_is_local_monday :
  Time.to_local (Time.date_utc 2024 6 12 8 0) (-120) = Time.date_utc 2024 6 12 10 0
  /\ Time.day (Time.date_utc 2024 6 12 10 0) = 3
  /\ Time.getStartOfCurrentWeekUTC (Time.date_utc 2024 6 12 8 0) (-120)
     = Time.date_utc 2024 6 9 22 0
  /\ Time.to_local (Time.date_utc 2024 6 9 22 0) (-120) = Time.date_utc 2024 6 10 0 0
  /\ forall nowUTC timezoneOffset : Z,
       let s := Time.to_local (Time.getStartOfCurrentWeekUTC nowUTC timezoneOffset)
                  timezoneOffset in
       s mod Time.MS_PER_DAY = 0
       /\ Time.isoWeekday s = 1
       /\ s <= Time.to_local nowUTC timezoneOffset < s + 7 * Time.MS_PER_DAY.
Proof.
  split; [reflexivity |]. split; [reflexivity |].
  split; [reflexivity |]. split; [reflexivity |].
  intros nowUTC timezoneOffset.
  unfold Time.getStartOfCurrentWeekUTC. cbv zeta.
  rewrite to_local_add_minutes.
  apply (startOf_isoWeek_spec (Time.subtract_minutes nowUTC timezoneOffset)).
Qed.

(** ** Statistics and retention *)

Lemma stats_match_spec (owner : ObjectId) (gte : Z) (lt : option Z) (c : Conversation) :
  stats_match owner gte lt c = true
  <-> c_owner c = owner /\ in_range (gte, lt) (c_created_at c)
      /\ (5 < List.length (c_messages c))%nat.
Proof.
  unfold stats_match, in_range; simpl.
  rewrite !andb_true_iff, N.eqb_eq, Z.leb_le, Z.ltb_lt.
  destruct lt as [hi|].
  - rewrite Z.ltb_lt. intuition lia.
  - intuition lia.
Qed.

Lemma older_match_spec (owner : ObjectId) (lt : Z) (c : Conversation) :
  older_match owner lt c = true <-> c_owner c = owner /\ c_created_at c < lt.
Proof.
  unfold older_match. rewrite andb_true_iff, N.eqb_eq, Z.ltb_lt. tauto.
Qed.


Lemma getKidStats_run (clock : nat -> Z) (kidId : ObjectId) (offset : Z) (w : World) :
  let count b :=
    List.length
      (filter (stats_match kidId (fst (bucket_range clock (ticks w) offset b))
                 (snd (bucket_range clock (ticks w) offset b)))
         (conversations_coll w)) in
  getKidStats clock kidId offset w
  = (set_ticks w (4 + ticks w),
     inr (mkKidStats (count CurrentWeek) (count PreviousWeek) (count Today)
            (count Yesterday))).
Proof. reflexivity. Qed.





Lemma deleteOlderThan_run (clock : nat -> Z) (kidId : ObjectId) (offset days : Z)
    (w : World) :
  deleteOlderThan clock kidId offset days w
  = (set_conversations (set_ticks w (S (ticks w)))
       (deleteMany (older_match kidId (Time.getDaysBeforeUTC (clock (ticks w)) offset days))
          (conversations_coll w)),
     inr tt).
Proof. reflexivity. Qed.

Lemma In_deleteMany {A} (p : A -> bool) (l : list A) (x : A) :
  In x (deleteMany p l) <-> In x l /\ p x = false.
Proof.
  unfold deleteMany. rewrite filter_In, negb_true_iff. tauto.
Qed.




(** ** Running the services *)

Lemma bind_ok {A B} (c : M A) (k : A -> M B) (w w' : World) (a : A) :
  c w = (w', inr a) -> bind c k w = k a w'.
Proof. intros H. unfold bind. rewrite H. reflexivity. Qed.

Lemma bind_throw {A B} (c : M A) (k : A -> M B) (w w' : World) (e : JsError) :
  c w = (w', inl e) -> bind c k w = (w', inl e).
Proof. intros H. unfold bind. rewrite H. reflexivity. Qed.

Lemma validate_user_message (text : jsstring) :
  text <> [] -> validate_message (lit "user") (Some text) = None.
Proof. destruct text; [congruence | reflexivity]. Qed.

Lemma validate_message_text (role : jsstring) (input : option jsstring) :
  validate_message role input = None ->
  exists text, input = Some text /\ text <> [].
Proof.
  unfold validate_message.
  destruct (negb (existsb (str_eqb role) role_enum)); [discriminate |].
  destruct input as [[|c s]|]; try discriminate.
  intros _. eexists. split; [reflexivity | discriminate].
Qed.

Lemma newMessage_run (clock : nat -> Z) (role : jsstring) (input : option jsstring)
    (cid : ObjectId) (w : World) :
  validate_message role input = None ->
  let m := mkMessage (next_id w) role
             [mkBlock (lit "text") (match input with Some s => s | None => [] end)]
             cid (clock (ticks w)) (clock (ticks w)) in
  newMessage clock role input cid w
  = (mkWorld (messages_coll w ++ [m]) (conversations_coll w) (users_coll w)
       (N.succ (next_id w)) (S (ticks w)) (llm_log w),
     inr m).
Proof. intros H. unfold newMessage. rewrite H. reflexivity. Qed.

Lemma newMessage_fail (clock : nat -> Z) (role : jsstring) (input : option jsstring)
    (cid : ObjectId) (w : World) (e : JsError) :
  validate_message role input = Some e ->
  newMessage clock role input cid w = (w, inl e).
Proof. intros H. unfold newMessage. rewrite H. reflexivity. Qed.

Lemma updateConversation_run (clock : nat -> Z) (cid mid : ObjectId) (w : World) :
  updateConversation clock cid mid w
  = match find_conversation w cid with
    | None => (set_ticks w (S (ticks w)), inr None)
    | Some c =>
        (mkWorld (messages_coll w)
           (updateOne (has_id cid) (add_reference mid (clock (ticks w)))
              (conversations_coll w))
           (users_coll w) (next_id w) (S (ticks w)) (llm_log w),
         inr (Some (populate (add_reference mid (clock (ticks w)) c) (messages_coll w))))
    end.
Proof.
  unfold updateConversation, find_conversation, bind, now.
  cbn [conversations_coll set_ticks messages_coll].
  destruct (findOne _ (conversations_coll w)); reflexivity.
Qed.

Lemma findOne_updateOne {A} (p : A -> bool) (f : A -> A) (l : list A) :
  (forall x, p (f x) = p x) ->
  findOne p (updateOne p f l) = option_map f (findOne p l).
Proof.
  intros Hp. unfold findOne. induction l as [|x l IH]; simpl; [reflexivity |].
  destruct (p x) eqn:Hx; simpl.
  - rewrite Hp, Hx. reflexivity.
  - rewrite Hx. exact IH.
Qed.

Lemma findOne_some {A} (p : A -> bool) (l : list A) (x : A) :
  findOne p l = Some x -> In x l /\ p x = true.
Proof. apply find_some. Qed.

Lemma updateOne_none {A} (p : A -> bool) (f : A -> A) (l : list A) :
  findOne p l = None -> updateOne p f l = l.
Proof.
  unfold findOne. induction l as [|x l IH]; simpl; [reflexivity |].
  destruct (p x); [discriminate |]. intros H. rewrite IH by exact H. reflexivity.
Qed.

(** *** Membership and [$addToSet] *)

Lemma mem_In (i : ObjectId) (l : list ObjectId) : mem i l = true <-> In i l.
Proof.
  unfold mem. rewrite existsb_exists. split.
  - intros (x & Hx & He). apply N.eqb_eq in He. subst. exact Hx.
  - intros H. exists i. split; [exact H | apply N.eqb_refl].
Qed.

Lemma mem_fresh (n : ObjectId) (l : list ObjectId) :
  Forall (fun i => (i < n)%N) l -> mem n l = false.
Proof.
  intros H. destruct (mem n l) eqn:Hm; [| reflexivity].
  apply mem_In in Hm. rewrite Forall_forall in H. apply H in Hm. lia.
Qed.

Lemma In_addToSet (i j : ObjectId) (l : list ObjectId) :
  In j (addToSet i l) <-> j = i \/ In j l.
Proof.
  unfold addToSet. destruct (mem i l) eqn:Hm.
  - apply mem_In in Hm. split; [tauto | intros [->|H]; assumption].
  - rewrite in_app_iff. simpl. intuition.
Qed.

Lemma addToSet_idempotent (i : ObjectId) (l : list ObjectId) :
  addToSet i (addToSet i l) = addToSet i l.
Proof.
  unfold addToSet at 1.
  replace (mem i (addToSet i l)) with true; [reflexivity |].
  symmetry. apply mem_In, In_addToSet. left. reflexivity.
Qed.

Lemma length_addToSet_fresh (i : ObjectId) (l : list ObjectId) :
  mem i l = false -> List.length (addToSet i l) = S (List.length l).
Proof.
  intros H. unfold addToSet. rewrite H, length_app. simpl. lia.
Qed.

(** ** The read path: [populate] with its sort *)

Lemma insert_created_at_perm (m : Message) (l : list Message) :
  Permutation (insert_created_at m l) (m :: l).
Proof.
  induction l as [|x l IH]; simpl; [reflexivity |].
  destruct (m_created_at m <=? m_created_at x); [reflexivity |].
  rewrite IH. apply perm_swap.
Qed.

Lemma sort_created_at_perm (l : list Message) : Permutation (sort_created_at l) l.
Proof.
  induction l as [|x l IH]; simpl; [reflexivity |].
  rewrite insert_created_at_perm. constructor. exact IH.
Qed.

Lemma insert_created_at_sorted (m : Message) (l : list Message) :
  StronglySorted created_le l -> StronglySorted created_le (insert_created_at m l).
Proof.
  induction l as [|x l IH]; intros Hs; simpl.
  - repeat constructor.
  - inversion Hs as [|? ? Hl Hx]; subst.
    destruct (Z.leb_spec (m_created_at m) (m_created_at x)) as [Hle|Hlt].
    + constructor; [exact Hs |].
      constructor; [exact Hle |].
      rewrite Forall_forall in *. intros y Hy. specialize (Hx y Hy).
      unfold created_le in *. lia.
    + constructor; [apply IH; exact Hl |].
      rewrite (insert_created_at_perm m l).
      constructor; [unfold created_le; lia | exact Hx].
Qed.

Lemma sort_created_at_sorted (l : list Message) :
  StronglySorted created_le (sort_created_at l).
Proof.
  induction l as [|x l IH]; simpl; [constructor |].
  apply insert_created_at_sorted, IH.
Qed.

Lemma populate_messages_sorted (refs : list ObjectId) (coll : list Message) :
  StronglySorted created_le (populate_messages refs coll).
Proof. apply sort_created_at_sorted. Qed.

Lemma In_populate_messages (refs : list ObjectId) (coll : list Message) (m : Message) :
  In m (populate_messages refs coll) <-> In m coll /\ In (m_id m) refs.
Proof.
  unfold populate_messages.
  split.
  - intros H. apply (Permutation_in _ (sort_created_at_perm _)) in H.
    apply filter_In in H. rewrite mem_In in H. exact H.
  - intros H. apply (Permutation_in _ (Permutation_sym (sort_created_at_perm _))).
    apply filter_In. rewrite mem_In. exact H.
Qed.

(** The resolved list depends on which ids are referenced, not on the
    order of the references. *)
Lemma populate_messages_ext (refs1 refs2 : list ObjectId) (coll : list Message) :
  (forall i, In i refs1 <-> In i refs2) ->
  populate_messages refs1 coll = populate_messages refs2 coll.
Proof.
  intros H. unfold populate_messages. f_equal. apply filter_ext.
  intros m. destruct (mem (m_id m) refs1) eqn:H1, (mem (m_id m) refs2) eqn:H2;
    try reflexivity.
  - apply mem_In, H, mem_In in H1. congruence.
  - apply mem_In, H, mem_In in H2. congruence.
Qed.

Lemma occurrences_perm (i : ObjectId) (l1 l2 : list Message) :
  Permutation l1 l2 -> occurrences i l1 = occurrences i l2.
Proof.
  intros H. unfold occurrences. induction H; simpl.
  - reflexivity.
  - destruct (N.eqb (m_id x) i); simpl; congruence.
  - destruct (N.eqb (m_id x) i), (N.eqb (m_id y) i); reflexivity.
  - congruence.
Qed.

Lemma occurrences_absent (i : ObjectId) (l : list Message) :
  ~ In i (map m_id l) -> occurrences i l = 0%nat.
Proof.
  unfold occurrences. induction l as [|x l IH]; simpl; [reflexivity |].
  intros H. destruct (N.eqb_spec (m_id x) i); [tauto |]. apply IH. tauto.
Qed.

Lemma occurrences_distinct (i : ObjectId) (l : list Message) :
  NoDup (map m_id l) -> In i (map m_id l) -> occurrences i l = 1%nat.
Proof.
  induction l as [|x l IH]; simpl; [tauto |].
  intros Hnd Hin. inversion Hnd as [|? ? Hx Hl]; subst.
  unfold occurrences. simpl. destruct (N.eqb_spec (m_id x) i) as [He|Hne].
  - simpl. f_equal. apply occurrences_absent. congruence.
  - apply IH; [exact Hl | tauto].
Qed.

Lemma occurrences_populate (i : ObjectId) (refs : list ObjectId) (coll : list Message) :
  In i refs ->
  occurrences i (populate_messages refs coll) = occurrences i coll.
Proof.
  intros Hi. unfold populate_messages.
  rewrite (occurrences_perm i _ _ (sort_created_at_perm _)).
  unfold occurrences. induction coll as [|x l IH]; simpl; [reflexivity |].
  destruct (N.eqb_spec (m_id x) i) as [He|Hne].
  - replace (mem (m_id x) refs) with true
      by (symmetry; apply mem_In; rewrite He; exact Hi).
    simpl. destruct (N.eqb_spec (m_id x) i); [| congruence].
    simpl. f_equal. exact IH.
  - destruct (mem (m_id x) refs); simpl.
    + destruct (N.eqb_spec (m_id x) i); [congruence | exact IH].
    + exact IH.
Qed.

(** ** Appending references *)

Lemma In_refs_after (ids refs : list ObjectId) (j : ObjectId) :
  In j (refs_after ids refs) <-> In j refs \/ In j ids.
Proof.
  unfold refs_after. revert refs.
  induction ids as [|i ids IH]; intros refs; simpl; [tauto |].
  rewrite IH, In_addToSet. intuition.
Qed.

Lemma has_id_add_reference (cid mid : ObjectId) (t : Z) (c : Conversation) :
  has_id cid (add_reference mid t c) = has_id cid c.
Proof. reflexivity. Qed.

Lemma find_after_update (clock : nat -> Z) (cid mid : ObjectId) (w : World)
    (c : Conversation) :
  find_conversation w cid = Some c ->
  find_conversation (fst (updateConversation clock cid mid w)) cid
  = Some (add_reference mid (clock (ticks w)) c).
Proof.
  intros Hc. rewrite updateConversation_run, Hc. unfold find_conversation in *.
  cbn [fst conversations_coll]. fold (has_id cid) in *.
  rewrite findOne_updateOne by (intros x; apply has_id_add_reference).
  rewrite Hc. reflexivity.
Qed.

Lemma append_all_run (clock : nat -> Z) (cid : ObjectId) (ids : list ObjectId) :
  forall (w : World) (c : Conversation) (last : option Populated),
    find_conversation w cid = Some c ->
    snd (append_all clock cid ids last w)
    = inr match ids with
          | [] => last
          | _ :: _ =>
              Some (mkPopulated (c_id c)
                      (populate_messages (refs_after ids (c_messages c)) (messages_coll w))
                      (c_owner c) (c_created_at c)
                      (clock (ticks w + List.length ids - 1)%nat))
          end.
Proof.
  induction ids as [|i ids IH]; intros w c last Hc; [reflexivity |].
  cbn [append_all].
  pose proof (find_after_update clock cid i w c Hc) as Hc1.
  pose proof (updateConversation_run clock cid i w) as Hrun. rewrite Hc in Hrun.
  rewrite (bind_ok _ _ _ _ _ Hrun).
  rewrite Hrun in Hc1. cbn [fst] in Hc1.
  rewrite (IH _ _ _ Hc1). cbn [messages_coll ticks].
  destruct ids as [|j ids].
  - cbn [List.length refs_after fold_left].
    replace (ticks w + 1 - 1)%nat with (ticks w) by lia. reflexivity.
  - cbn [add_reference c_id c_messages c_owner c_created_at List.length].
    replace (S (ticks w) + S (List.length ids) - 1)%nat
      with (ticks w + S (S (List.length ids)) - 1)%nat by lia.
    reflexivity.
Qed.

Lemma append_all_absent (clock : nat -> Z) (cid : ObjectId) (ids : list ObjectId) :
  forall (w : World) (last : option Populated),
    find_conversation w cid = None ->
    snd (append_all clock cid ids last w)
    = inr match ids with [] => last | _ :: _ => None end.
Proof.
  induction ids as [|i ids IH]; intros w last Hc; [reflexivity |].
  cbn [append_all].
  pose proof (updateConversation_run clock cid i w) as Hrun. rewrite Hc in Hrun.
  rewrite (bind_ok _ _ _ _ _ Hrun).
  rewrite IH by exact Hc. destruct ids; reflexivity.
Qed.

(** C4. The message list that [updateConversation] returns is in
    non-decreasing order of [created_at], whatever the store holds; and
    a client that appends the same message ids in two different orders
    gets the same list from the store. *)
Theorem read_path_is_chronological :
  forall (clock : nat -> Z) (w : World) (conversationId : ObjectId),
    (forall (messageId : ObjectId) (updated : Populated),
        snd (updateConversation clock conversationId messageId w) = inr (Some updated) ->
        StronglySorted created_le (p_messages updated))
    /\ (forall (ids : list ObjectId) (updated : Populated),
          snd (append_all clock conversationId ids None w) = inr (Some updated) ->
          StronglySorted created_le (p_messages updated))
    /\ (forall ids1 ids2 : list ObjectId,
          Permutation ids1 ids2 ->
          snd (append_all clock conversationId ids1 None w)
          = snd (append_all clock conversationId ids2 None w)).
Proof.
  intros clock w cid. split; [| split].
  - intros mid updated H. rewrite updateConversation_run in H.
    destruct (find_conversation w cid) as [c|]; [| discriminate].
    cbn [snd] in H. injection H as <-. apply populate_messages_sorted.
  - intros ids updated H.
    destruct (find_conversation w cid) as [c|] eqn:Hc.
    + rewrite (append_all_run clock cid ids w c None Hc) in H.
      destruct ids; [discriminate |]. injection H as <-.
      apply populate_messages_sorted.
    + rewrite (append_all_absent clock cid ids w None Hc) in H.
      destruct ids; discriminate.
  - intros ids1 ids2 Hp.
    destruct (find_conversation w cid) as [c|] eqn:Hc.
    + rewrite !(append_all_run clock cid _ w c None Hc).
      destruct ids1 as [|i1 ids1], ids2 as [|i2 ids2].
      * reflexivity.
      * apply Permutation_nil in Hp. discriminate.
      * apply Permutation_sym, Permutation_nil in Hp. discriminate.
      * rewrite (Permutation_length Hp).
        rewrite (populate_messages_ext (refs_after (i1 :: ids1) (c_messages c))
                   (refs_after (i2 :: ids2) (c_messages c))); [reflexivity |].
        intros j. rewrite !In_refs_after.
        split; intros [H|H]; try tauto; right.
        -- apply (Permutation_in _ Hp H).
        -- apply (Permutation_in _ (Permutation_sym Hp) H).
    + rewrite !(append_all_absent clock cid _ w None Hc).
      destruct ids1, ids2; reflexivity.
Qed.

(** In the sample store message 101 was created after message 102:
    appended in the order 101, 102, they come back as 102, 101. *)
Lemma read_path_is_chronological_witness :
  snd (append_all Sample.clock 100%N [101%N; 102%N] None Sample.world2)
  = inr (Some (mkPopulated 100%N [Sample.msg 102%N 3000; Sample.msg 101%N 5000] 7%N
                 (Time.date_utc 2024 6 12 7 0) (Sample.clock 1)))
  /\ StronglySorted created_le [Sample.msg 102%N 3000; Sample.msg 101%N 5000].
Proof.
  assert (H : snd (append_all Sample.clock 100%N [101%N; 102%N] None Sample.world2)
              = inr (Some (mkPopulated 100%N [Sample.msg 102%N 3000; Sample.msg 101%N 5000]
                             7%N (Time.date_utc 2024 6 12 7 0) (Sample.clock 1))))
    by reflexivity.
  split; [exact H |].
  exact (proj1 (proj2 (read_path_is_chronological Sample.clock Sample.world2 100%N))
           [101%N; 102%N] _ H).
Defined.

Lemma references_after_second_update (cid mid : ObjectId) (t1 t2 : Z)
    (l : list Conversation) :
  map c_messages
    (updateOne (has_id cid) (add_reference mid t2)
       (updateOne (has_id cid) (add_reference mid t1) l))
  = map c_messages (updateOne (has_id cid) (add_reference mid t1) l).
Proof.
  induction l as [|x l IH]; simpl; [reflexivity |].
  destruct (has_id cid x) eqn:Hx; simpl.
  - rewrite has_id_add_reference, Hx. simpl. rewrite addToSet_idempotent. reflexivity.
  - rewrite Hx. simpl. f_equal. exact IH.
Qed.

(** C5. Appending the same message id twice to a conversation: both
    calls answer with the conversation, the message appears exactly once
    in the resolved list, the second call leaves every reference list
    as the first call left it, and answers with the same messages. *)
Theorem append_is_idempotent :
  forall (clock : nat -> Z) (w : World) (conversationId messageId : ObjectId)
         (c : Conversation),
    find_conversation w conversationId = Some c ->
    NoDup (map m_id (messages_coll w)) ->
    In messageId (map m_id (messages_coll w)) ->
    let r1 := updateConversation clock conversationId messageId w in
    let r2 := updateConversation clock conversationId messageId (fst r1) in
    exists p1 p2 c1 c2,
      snd r1 = inr (Some p1) /\ snd r2 = inr (Some p2)
      /\ occurrences messageId (p_messages p2) = 1%nat
      /\ p_messages p2 = p_messages p1
      /\ find_conversation (fst r1) conversationId = Some c1
      /\ find_conversation (fst r2) conversationId = Some c2
      /\ c_messages c2 = c_messages c1
      /\ map c_messages (conversations_coll (fst r2))
         = map c_messages (conversations_coll (fst r1)).
Proof.
  intros clock w cid mid c Hc Hnd Hin r1 r2.
  pose proof (find_after_update clock cid mid w c Hc) as Hc1. fold r1 in Hc1.
  pose proof (find_after_update clock cid mid (fst r1) _ Hc1) as Hc2. fold r2 in Hc2.
  pose proof (updateConversation_run clock cid mid w) as H1. fold r1 in H1.
  rewrite Hc in H1.
  pose proof (updateConversation_run clock cid mid (fst r1)) as H2. fold r2 in H2.
  rewrite Hc1 in H2.
  eexists; eexists; eexists; eexists.
  split; [rewrite H1; reflexivity |].
  split; [rewrite H2; reflexivity |].
  split.
  { cbn [p_messages populate]. rewrite occurrences_populate.
    - rewrite H1. cbn [fst messages_coll]. apply occurrences_distinct; assumption.
    - cbn [add_reference c_messages]. apply In_addToSet. left. reflexivity. }
  split.
  { cbn [p_messages populate add_reference c_messages].
    rewrite addToSet_idempotent. rewrite H1. reflexivity. }
  split; [exact Hc1 |]. split; [exact Hc2 |].
  split; [cbn [add_reference c_messages]; apply addToSet_idempotent |].
  rewrite H2. cbn [fst conversations_coll]. rewrite H1. cbn [fst conversations_coll ticks].
  apply references_after_second_update.
Qed.

Lemma append_is_idempotent_witness :
  let r1 := updateConversation Sample.clock 100%N 101%N Sample.world2 in
  let r2 := updateConversation Sample.clock 100%N 101%N (fst r1) in
  exists p1 p2 c1 c2,
    snd r1 = inr (Some p1) /\ snd r2 = inr (Some p2)
    /\ occurrences 101%N (p_messages p2) = 1%nat
    /\ p_messages p2 = p_messages p1
    /\ find_conversation (fst r1) 100%N = Some c1
    /\ find_conversation (fst r2) 100%N = Some c2
    /\ c_messages c2 = c_messages c1
    /\ map c_messages (conversations_coll (fst r2))
       = map c_messages (conversations_coll (fst r1)).
Proof.
  apply (append_is_idempotent Sample.clock Sample.world2 100%N 101%N
           (mkConversation 100%N [] 7%N (Time.date_utc 2024 6 12 7 0)
              (Time.date_utc 2024 6 12 7 0))).
  - reflexivity.
  - repeat constructor; simpl; intuition discriminate.
  - left. reflexivity.
Defined.

(** ** A turn of the chat *)

Lemma to_turn_run (m : Message) (w : World) :
  m_content m <> [] -> to_turn m w = (w, inr (turn_of m)).
Proof.
  unfold to_turn, turn_of. destruct (m_content m) as [|[ty tx] l]; [congruence |].
  reflexivity.
Qed.

Lemma mapM_to_turn_run (l : list Message) (w : World) :
  Forall (fun m => m_content m <> []) l ->
  mapM to_turn l w = (w, inr (map turn_of l)).
Proof.
  induction 1 as [|m l Hm Hl IH]; [reflexivity |].
  cbn [mapM map].
  rewrite (bind_ok _ _ _ _ _ (to_turn_run m w Hm)).
  rewrite (bind_ok _ _ _ _ _ IH). reflexivity.
Qed.

Lemma populate_messages_content (refs : list ObjectId) (coll : list Message) :
  Forall (fun m => m_content m <> []) coll ->
  Forall (fun m => m_content m <> []) (populate_messages refs coll).
Proof.
  rewrite !Forall_forall. intros H m Hm.
  apply In_populate_messages in Hm. apply H, Hm.
Qed.

Lemma chatWithLexi_absent (clock : nat -> Z) (llm : list Turn -> jsstring + Reply)
    (text : jsstring) (cid : ObjectId) (user : User) (w : World) :
  text <> [] ->
  find_conversation w cid = None ->
  chatWithLexi clock llm text cid user w
  = (mkWorld (messages_coll w ++ [user_message clock w text cid])
       (conversations_coll w) (users_coll w) (N.succ (next_id w))
       (S (S (ticks w))) (llm_log w),
     inl (chat_error (lit "Cannot read properties of null (reading 'messages')"))).
Proof.
  intros Ht Hc.
  pose proof (newMessage_run clock (lit "user") (Some text) cid w
                (validate_user_message text Ht)) as Hn.
  cbv zeta in Hn.
  unfold chatWithLexi, try_catch.
  rewrite (bind_ok _ _ _ _ _ Hn).
  erewrite bind_ok; [| rewrite updateConversation_run; unfold find_conversation in *;
                       cbn [conversations_coll]; rewrite Hc; reflexivity].
  reflexivity.
Qed.

Lemma chatWithLexi_run (clock : nat -> Z) (llm : list Turn -> jsstring + Reply)
    (text : jsstring) (cid : ObjectId) (user : User) (w : World) (c : Conversation) :
  text <> [] ->
  find_conversation w cid = Some c ->
  Forall (fun m => m_content m <> []) (messages_coll w) ->
  let um := user_message clock w text cid in
  let history :=
    populate_messages (addToSet (next_id w) (c_messages c)) (messages_coll w ++ [um]) in
  let request := system_turn user :: slice_last 20 (map turn_of history) in
  let convs1 :=
    updateOne (has_id cid) (add_reference (next_id w) (clock (S (ticks w))))
      (conversations_coll w) in
  let asked :=
    mkWorld (messages_coll w ++ [um]) convs1 (users_coll w) (N.succ (next_id w))
      (S (S (ticks w))) (llm_log w ++ [request]) in
  chatWithLexi clock llm text cid user w
  = match llm request with
    | inl msg => (asked, inl (chat_error msg))
    | inr reply =>
        match validate_message (r_role reply) (r_content reply) with
        | Some e => (asked, inl (chat_error (error_message e)))
        | None =>
            let am :=
              mkMessage (N.succ (next_id w)) (r_role reply)
                [mkBlock (lit "text")
                   (match r_content reply with Some s => s | None => [] end)]
                cid (clock (S (S (ticks w)))) (clock (S (S (ticks w)))) in
            (mkWorld ((messages_coll w ++ [um]) ++ [am])
               (updateOne (has_id cid)
                  (add_reference (N.succ (next_id w)) (clock (S (S (S (ticks w))))))
                  convs1)
               (users_coll w) (N.succ (N.succ (next_id w)))
               (S (S (S (S (ticks w))))) (llm_log w ++ [request]),
             inr (mkChatResponse reply cid))
        end
    end.
Proof.
  intros Ht Hc Hcontent um history request convs1 asked.
  pose proof (newMessage_run clock (lit "user") (Some text) cid w
                (validate_user_message text Ht)) as Hn.
  cbv zeta in Hn. fold (user_message clock w text cid) in Hn. fold um in Hn.
  unfold chatWithLexi, try_catch.
  rewrite (bind_ok _ _ _ _ _ Hn).
  set (w1 := mkWorld (messages_coll w ++ [um]) (conversations_coll w) (users_coll w)
               (N.succ (next_id w)) (S (ticks w)) (llm_log w)).
  assert (Hc1 : find_conversation w1 cid = Some c) by exact Hc.
  pose proof (updateConversation_run clock cid (m_id um) w1) as Hu.
  rewrite Hc1 in Hu. cbn [w1 messages_coll conversations_coll users_coll next_id
                           ticks llm_log m_id um user_message] in Hu.
  fold um in Hu. fold convs1 in Hu.
  rewrite (bind_ok _ _ _ _ _ Hu).
  cbn [p_messages populate add_reference c_messages]. fold history.
  set (w2 := mkWorld (messages_coll w ++ [um]) convs1 (users_coll w)
               (N.succ (next_id w)) (S (S (ticks w))) (llm_log w)).
  assert (Hh : Forall (fun m => m_content m <> []) history).
  { apply populate_messages_content, Forall_app. split; [exact Hcontent |].
    constructor; [discriminate | constructor]. }
  rewrite (bind_ok _ _ _ _ _ (mapM_to_turn_run history w2 Hh)).
  fold (system_turn user). fold request.
  unfold bind at 1. unfold create_completion at 1.
  cbn [w2 llm_log set_llm_log messages_coll conversations_coll users_coll next_id ticks].
  fold asked.
  destruct (llm request) as [msg|reply]; [reflexivity |].
  cbn [message r_role r_content].
  destruct (validate_message (r_role reply) (r_content reply)) as [e|] eqn:Hv.
  - rewrite (bind_throw _ _ _ _ _ (newMessage_fail clock _ _ cid asked e Hv)).
    reflexivity.
  - pose proof (newMessage_run clock _ _ cid asked Hv) as Hn2. cbv zeta in Hn2.
    rewrite (bind_ok _ _ _ _ _ Hn2).
    cbn [asked messages_coll conversations_coll users_coll next_id ticks llm_log m_id].
    set (w4 := mkWorld _ convs1 _ _ _ _).
    assert (Hc4 : find_conversation w4 cid
                  = Some (add_reference (next_id w) (clock (S (ticks w))) c)).
    { unfold find_conversation, w4, convs1. cbn [conversations_coll].
      fold (has_id cid).
      rewrite findOne_updateOne by (intros x; apply has_id_add_reference).
      unfold find_conversation in Hc. fold (has_id cid) in Hc. rewrite Hc. reflexivity. }
    pose proof (updateConversation_run clock cid (N.succ (next_id w)) w4) as Hu4.
    rewrite Hc4 in Hu4.
    rewrite (bind_ok _ _ _ _ _ Hu4). reflexivity.
Qed.


(** *** What a handler leaves in the message collection *)

Lemma grows_ret {A} (a : A) : grows (ret a).
Proof. intros w. exists []. simpl. rewrite app_nil_r. reflexivity. Qed.

Lemma grows_throw {A} (e : JsError) : grows (@throw A e).
Proof. intros w. exists []. simpl. rewrite app_nil_r. reflexivity. Qed.

Lemma grows_bind {A B} (c : M A) (k : A -> M B) :
  grows c -> (forall a, grows (k a)) -> grows (bind c k).
Proof.
  intros Hc Hk w. unfold bind. destruct (Hc w) as [r1 H1].
  destruct (c w) as [w1 [e|a]]; cbn [fst] in *.
  - exists r1. exact H1.
  - destruct (Hk a w1) as [r2 H2]. exists (r1 ++ r2).
    rewrite H2, H1, app_assoc. reflexivity.
Qed.

Lemma grows_try_catch {A} (c : M A) (h : JsError -> M A) :
  grows c -> (forall e, grows (h e)) -> grows (try_catch c h).
Proof.
  intros Hc Hh w. unfold try_catch. destruct (Hc w) as [r1 H1].
  destruct (c w) as [w1 [e|a]]; cbn [fst] in *.
  - destruct (Hh e w1) as [r2 H2]. exists (r1 ++ r2).
    rewrite H2, H1, app_assoc. reflexivity.
  - exists r1. exact H1.
Qed.

Lemma grows_newMessage (clock : nat -> Z) (role : jsstring) (input : option jsstring)
    (cid : ObjectId) :
  grows (newMessage clock role input cid).
Proof.
  intros w. destruct (validate_message role input) as [e|] eqn:Hv.
  - rewrite (newMessage_fail clock role input cid w e Hv). exists [].
    simpl. rewrite app_nil_r. reflexivity.
  - pose proof (newMessage_run clock role input cid w Hv) as H. cbv zeta in H.
    rewrite H. eexists. reflexivity.
Qed.

Lemma grows_updateConversation (clock : nat -> Z) (cid mid : ObjectId) :
  grows (updateConversation clock cid mid).
Proof.
  intros w. rewrite updateConversation_run. exists [].
  destruct (find_conversation w cid); simpl; rewrite app_nil_r; reflexivity.
Qed.

Lemma grows_mapM {A B} (f : A -> M B) (l : list A) :
  (forall a, grows (f a)) -> grows (mapM f l).
Proof.
  intros Hf. induction l as [|x l IH]; cbn [mapM]; [apply grows_ret |].
  apply grows_bind; [apply Hf |]. intros y.
  apply grows_bind; [exact IH |]. intros ys. apply grows_ret.
Qed.

Lemma grows_to_turn (m : Message) : grows (to_turn m).
Proof. unfold to_turn. destruct (m_content m); [apply grows_throw | apply grows_ret]. Qed.

Lemma grows_create_completion (llm : list Turn -> jsstring + Reply) (l : list Turn) :
  grows (create_completion llm l).
Proof.
  intros w. unfold create_completion. exists [].
  destruct (llm l); simpl; rewrite app_nil_r; reflexivity.
Qed.

(** Whatever happens next, the user's message is stored first. *)
Lemma chatWithLexi_stores_user_message (clock : nat -> Z)
    (llm : list Turn -> jsstring + Reply) (text : jsstring) (cid : ObjectId)
    (user : User) (w : World) :
  text <> [] ->
  exists rest,
    messages_coll (fst (chatWithLexi clock llm text cid user w))
    = messages_coll w ++ user_message clock w text cid :: rest.
Proof.
  intros Ht.
  pose proof (newMessage_run clock (lit "user") (Some text) cid w
                (validate_user_message text Ht)) as Hn.
  cbv zeta in Hn. fold (user_message clock w text cid) in Hn.
  unfold chatWithLexi.
  match goal with
  | |- context [try_catch (bind _ ?k) ?h] =>
      assert (Hk : forall m, grows (k m)); [| set (K := k) in *; set (H := h) in *]
  end.
  { intros m. apply grows_bind; [apply grows_updateConversation |].
    intros [updated|]; [| apply grows_throw].
    apply grows_bind; [apply grows_mapM, grows_to_turn |]. intros turns.
    apply grows_bind; [apply grows_create_completion |]. intros reply.
    apply grows_bind; [apply grows_newMessage |]. intros am.
    apply grows_bind; [apply grows_updateConversation |]. intros _.
    apply grows_ret. }
  unfold try_catch. rewrite (bind_ok _ _ _ _ _ Hn).
  destruct (Hk (user_message clock w text cid)
              (mkWorld (messages_coll w ++ [user_message clock w text cid])
                 (conversations_coll w) (users_coll w) (N.succ (next_id w))
                 (S (ticks w)) (llm_log w))) as [rest Hrest].
  cbn [messages_coll] in Hrest. exists rest.
  destruct (K _ _) as [w' [e|r]]; cbn [fst] in *; unfold H; cbn [throw fst];
    rewrite Hrest, <- app_assoc; reflexivity.
Qed.

(** [chatWithLexi] throws nothing but its own error. *)
Lemma chatWithLexi_error (clock : nat -> Z) (llm : list Turn -> jsstring + Reply)
    (text : jsstring) (cid : ObjectId) (user : User) (w : World) (e : JsError) :
  snd (chatWithLexi clock llm text cid user w) = inl e ->
  exists details, e = chat_error details.
Proof.
  unfold chatWithLexi, try_catch.
  match goal with |- context [match ?c w with _ => _ end] => destruct (c w) as [w' [e'|r]] end.
  - cbn [throw snd]. intros H. injection H as <-. eexists. reflexivity.
  - discriminate.
Qed.

(** *** [slice(-n)] *)

Lemma slice_last_map {A B} (f : A -> B) (n : nat) (l : list A) :
  slice_last n (map f l) = map f (slice_last n l).
Proof. unfold slice_last. rewrite length_map, skipn_map. reflexivity. Qed.

Lemma slice_last_short {A} (n : nat) (l : list A) :
  (List.length l <= n)%nat -> slice_last n l = l.
Proof.
  intros H. unfold slice_last. replace (List.length l - n)%nat with 0%nat by lia.
  reflexivity.
Qed.

Lemma slice_last_long {A} (n : nat) (l : list A) :
  (n <= List.length l)%nat ->
  exists older, l = older ++ slice_last n l /\ List.length (slice_last n l) = n.
Proof.
  intros H. unfold slice_last. exists (firstn (List.length l - n) l).
  split; [symmetry; apply firstn_skipn | rewrite length_skipn; lia].
Qed.


(** ** Well-formed worlds

    The services keep a world well formed, so the hypothesis of the
    properties of a turn holds of every world that they build from an
    empty database. *)

Lemma wf_empty (users : list User) (n : ObjectId) (k : nat) (log : list (list Turn)) :
  wf_world (mkWorld [] [] users n k log).
Proof. constructor; simpl; constructor. Qed.

Lemma Forall_updateOne {A} (P : A -> Prop) (p : A -> bool) (f : A -> A) (l : list A) :
  Forall P l -> (forall x, P x -> P (f x)) -> Forall P (updateOne p f l).
Proof.
  intros Hl Hf. induction Hl as [|x l Hx Hl IH]; simpl; [constructor |].
  destruct (p x); constructor; auto.
Qed.

Lemma wf_store_message (w : World) (m : Message) (k : nat) (log : list (list Turn)) :
  wf_world w -> m_id m = next_id w -> m_content m <> [] ->
  wf_world (mkWorld (messages_coll w ++ [m]) (conversations_coll w) (users_coll w)
              (N.succ (next_id w)) k log).
Proof.
  intros [Hids Hrefs Hnd Hcont] Hm Hc. constructor; cbn [messages_coll conversations_coll next_id].
  - apply Forall_app. split.
    + eapply Forall_impl; [| exact Hids]. intros x Hx. cbv beta in Hx. lia.
    + constructor; [lia | constructor].
  - eapply Forall_impl; [| exact Hrefs]. intros c Hcr.
    eapply Forall_impl; [| exact Hcr]. intros i Hi. cbv beta in Hi. lia.
  - rewrite map_app. simpl.
    apply NoDup_app; [exact Hnd | repeat constructor; simpl; tauto |].
    intros i Hi [Hj|[]]. subst i.
    rewrite in_map_iff in Hi. destruct Hi as (x & Hx & Hin).
    rewrite Forall_forall in Hids. specialize (Hids x Hin). lia.
  - apply Forall_app. split; [exact Hcont | constructor; [exact Hc | constructor]].
Qed.

Lemma wf_add_reference (w : World) (cid mid : ObjectId) (t : Z) (k : nat)
    (log : list (list Turn)) :
  wf_world w -> (mid < next_id w)%N ->
  wf_world (mkWorld (messages_coll w)
              (updateOne (has_id cid) (add_reference mid t) (conversations_coll w))
              (users_coll w) (next_id w) k log).
Proof.
  intros [Hids Hrefs Hnd Hcont] Hm.
  constructor; cbn [messages_coll conversations_coll next_id]; try assumption.
  apply Forall_updateOne; [exact Hrefs |].
  intros c Hc. cbn [add_reference c_messages].
  rewrite Forall_forall in *. intros i Hi. apply In_addToSet in Hi.
  destruct Hi as [->|Hi]; [exact Hm | apply Hc, Hi].
Qed.

Lemma wf_set_ticks_log (w : World) (k : nat) (log : list (list Turn)) :
  wf_world w ->
  wf_world (mkWorld (messages_coll w) (conversations_coll w) (users_coll w)
              (next_id w) k log).
Proof. intros [H1 H2 H3 H4]. constructor; assumption. Qed.

Lemma newConversation_wf (clock : nat -> Z) (userId : ObjectId) (w : World) :
  wf_world w -> wf_world (fst (newConversation clock userId w)).
Proof.
  intros [Hids Hrefs Hnd Hcont].
  constructor; cbn; try assumption.
  - eapply Forall_impl; [| exact Hids]. intros x Hx. cbv beta in Hx. lia.
  - apply Forall_app. split; [| repeat constructor].
    eapply Forall_impl; [| exact Hrefs]. intros c Hcr.
    eapply Forall_impl; [| exact Hcr]. intros i Hi. cbv beta in Hi. lia.
Qed.

Lemma deleteOlderThan_wf (clock : nat -> Z) (kidId : ObjectId) (offset days : Z)
    (w : World) :
  wf_world w -> wf_world (fst (deleteOlderThan clock kidId offset days w)).
Proof.
  intros [Hids Hrefs Hnd Hcont]. rewrite deleteOlderThan_run.
  constructor; cbn [fst messages_coll conversations_coll next_id set_conversations
                      set_ticks]; try assumption.
  unfold deleteMany. rewrite Forall_forall in *. intros c Hc.
  apply filter_In in Hc. apply Hrefs, Hc.
Qed.

Lemma chatWithLexi_wf (clock : nat -> Z) (llm : list Turn -> jsstring + Reply)
    (text : jsstring) (cid : ObjectId) (user : User) (w : World) :
  wf_world w -> text <> [] ->
  wf_world (fst (chatWithLexi clock llm text cid user w)).
Proof.
  intros Hwf Ht.
  assert (H1 : forall k log,
             wf_world (mkWorld (messages_coll w ++ [user_message clock w text cid])
                         (conversations_coll w) (users_coll w) (N.succ (next_id w)) k log)).
  { intros k log. apply wf_store_message; [exact Hwf | reflexivity | discriminate]. }
  destruct (find_conversation w cid) as [c|] eqn:Hc.
  - pose proof (chatWithLexi_run clock llm text cid user w c Ht Hc (wf_content w Hwf))
      as Hrun.
    cbv zeta in Hrun.
    assert (H2 : forall k log,
               wf_world
                 (mkWorld (messages_coll w ++ [user_message clock w text cid])
                    (updateOne (has_id cid)
                       (add_reference (next_id w) (clock (S (ticks w))))
                       (conversations_coll w))
                    (users_coll w) (N.succ (next_id w)) k log)).
    { intros k log.
      apply (wf_add_reference _ cid (next_id w) (clock (S (ticks w))) k log (H1 0%nat [])).
      cbn [next_id]. lia. }
    destruct (llm _) as [msg|reply]; [rewrite Hrun; apply H2 |].
    destruct (validate_message (r_role reply) (r_content reply)) as [e|] eqn:Hv;
      [rewrite Hrun; apply H2 |].
    rewrite Hrun. cbn [fst].
    pose proof (wf_store_message _
                  (mkMessage (N.succ (next_id w)) (r_role reply)
                     [mkBlock (lit "text")
                        match r_content reply with Some s => s | None => [] end]
                     cid (clock (S (S (ticks w)))) (clock (S (S (ticks w)))))
                  0%nat [] (H2 0%nat []) eq_refl ltac:(discriminate)) as H3.
    cbn [messages_coll conversations_coll users_coll next_id] in H3.
    apply (wf_add_reference _ cid (N.succ (next_id w)) (clock (S (S (S (ticks w))))) _ _ H3).
    cbn [next_id]. lia.
  - rewrite (chatWithLexi_absent clock llm text cid user w Ht Hc). apply H1.
Qed.


(** ** A conversation that does not exist *)

(** C1, as the specification states it, fails: for a conversation id
    that is not in the store, [updateConversation] does not fail at all,
    it answers [null]; and [chatWithLexi] fails with an error whose
    status is 500, not the 404 of a missing document. *)
Lemma missing_conversation_not_reported :
  find_conversation Sample.world 555%N = None
  /\ snd (updateConversation Sample.clock 555%N 101%N Sample.world) = inr None
  /\ ~ (exists e, snd (updateConversation Sample.clock 555%N 101%N Sample.world) = inl e)
  /\ ~ (exists e,
          snd (chatWithLexi Sample.clock Sample.answering (lit "Q") 555%N Sample.kid
                 Sample.world) = inl e
          /\ error_status e = 404).
Proof.
  split; [reflexivity |]. split; [reflexivity |].
  split; [intros (e & H); discriminate |].
  intros (e & H & Hs).
  apply chatWithLexi_error in H. destruct H as (d & ->). discriminate.
Qed.

(** C1, amended. For a conversation id that is not in the store,
    [updateConversation] answers [null] and changes no document; and
    every call of [chatWithLexi] throws its own error, of status 500.
    With a non-empty text it stores the user's message, leaves the
    conversations as they were, asks the model nothing, and the details
    of its error are those of reading a property of [null]; with the
    empty text it stores nothing, and the details are the schema's. *)
Theorem missing_conversation_resolves_to_null :
  forall (clock : nat -> Z) (llm : list Turn -> jsstring + Reply) (w : World)
         (conversationId : ObjectId),
    find_conversation w conversationId = None ->
    (forall messageId : ObjectId,
        updateConversation clock conversationId messageId w
        = (set_ticks w (S (ticks w)), inr None))
    /\ (forall (text : jsstring) (user : User),
          text <> [] ->
          let r := chatWithLexi clock llm text conversationId user w in
          snd r = inl (chat_error (lit "Cannot read properties of null (reading 'messages')"))
          /\ (exists e, snd r = inl e /\ error_status e = 500)
          /\ messages_coll (fst r)
             = messages_coll w ++ [user_message clock w text conversationId]
          /\ conversations_coll (fst r) = conversations_coll w
          /\ llm_log (fst r) = llm_log w)
    /\ (forall user : User,
          let r := chatWithLexi clock llm [] conversationId user w in
          snd r
          = inl (chat_error
                   (lit "Message validation failed: content.0.text: 'Text' is required!"))
          /\ (exists e, snd r = inl e /\ error_status e = 500)
          /\ fst r = w).
Proof.
  intros clock llm w cid Hc. split; [| split].
  - intros mid. rewrite updateConversation_run, Hc. reflexivity.
  - intros text user Ht r. subst r.
    rewrite (chatWithLexi_absent clock llm text cid user w Ht Hc).
    cbn [fst snd messages_coll conversations_coll llm_log].
    split; [reflexivity |]. split; [eexists; split; reflexivity |].
    repeat split.
  - intros user r. subst r.
    split; [reflexivity |]. split; [eexists; split; reflexivity | reflexivity].
Qed.

Lemma missing_conversation_resolves_to_null_witness :
  updateConversation Sample.clock 555%N 101%N Sample.world
  = (set_ticks Sample.world 1, inr None)
  /\ snd (chatWithLexi Sample.clock Sample.answering (lit "Q") 555%N Sample.kid
            Sample.world)
     = inl (chat_error (lit "Cannot read properties of null (reading 'messages')"))
  /\ fst (chatWithLexi Sample.clock Sample.answering [] 555%N Sample.kid Sample.world)
     = Sample.world.
Proof.
  destruct (missing_conversation_resolves_to_null Sample.clock Sample.answering
              Sample.world 555%N eq_refl) as (Hu & Hchat & Hempty).
  split; [apply Hu |]. split.
  - apply (Hchat (lit "Q") Sample.kid). discriminate.
  - apply (Hempty Sample.kid).
Defined.

(** ** The message count of a turn *)

Lemma message_count_after (w w' : World) (cid : ObjectId) (c c' : Conversation) :
  find_conversation w cid = Some c ->
  find_conversation w' cid = Some c' ->
  forall n, List.length (c_messages c') = (List.length (c_messages c) + n)%nat ->
            message_count w' cid = (message_count w cid + n)%nat.
Proof. intros H H' n Hn. unfold message_count. rewrite H, H'. exact Hn. Qed.

Lemma find_conversation_updated (w : World) (cid mid : ObjectId) (t : Z)
    (c : Conversation) (l : list Message) (u : list User) (n : ObjectId) (k : nat)
    (log : list (list Turn)) :
  find_conversation w cid = Some c ->
  find_conversation
    (mkWorld l (updateOne (has_id cid) (add_reference mid t) (conversations_coll w))
       u n k log) cid
  = Some (add_reference mid t c).
Proof.
  intros Hc. unfold find_conversation in *. cbn [conversations_coll].
  fold (has_id cid) in *.
  rewrite findOne_updateOne by (intros x; apply has_id_add_reference).
  rewrite Hc. reflexivity.
Qed.

Lemma references_below_next (w : World) (cid : ObjectId) (c : Conversation) :
  wf_world w -> find_conversation w cid = Some c ->
  Forall (fun i => (i < next_id w)%N) (c_messages c).
Proof.
  intros Hwf Hc. apply findOne_some in Hc. destruct Hc as [Hin _].
  pose proof (wf_references w Hwf) as H. rewrite Forall_forall in H. apply H, Hin.
Qed.

(** C2, as the specification states it, fails: here the model answers
    (the call succeeds) with a message whose content is [null], the
    message schema refuses it, and the count of the conversation grows
    by 1, not by 2. *)
Lemma silent_reply_adds_one :
  (exists reply, forall request, Sample.silent request = inr reply)
  /\ find_conversation Sample.world 100%N <> None
  /\ message_count Sample.world 100%N = 0%nat
  /\ message_count
       (fst (chatWithLexi Sample.clock Sample.silent (lit "Q") 100%N Sample.kid
               Sample.world)) 100%N = 1%nat.
Proof.
  split; [eexists; intros; reflexivity |].
  split; [discriminate |]. split; reflexivity.
Qed.

(** C2, amended. On a conversation that exists, a turn whose text is a
    non-empty string calls the model once; the count of the conversation
    grows by 2 when the call succeeds with a reply that the message
    schema accepts (the turn then returns it), and by 1 when the call
    fails or the reply is refused (the turn then throws); in each case
    the user's message is stored. *)
Theorem turn_adds_one_or_two_messages :
  forall (clock : nat -> Z) (llm : list Turn -> jsstring + Reply) (w : World)
         (text : jsstring) (conversationId : ObjectId) (user : User)
         (c : Conversation),
    wf_world w ->
    find_conversation w conversationId = Some c ->
    text <> [] ->
    let r := chatWithLexi clock llm text conversationId user w in
    exists request,
      llm_log (fst r) = llm_log w ++ [request]
      /\ In (user_message clock w text conversationId) (messages_coll (fst r))
      /\ match llm request with
         | inr reply =>
             match validate_message (r_role reply) (r_content reply) with
             | None =>
                 message_count (fst r) conversationId
                 = (message_count w conversationId + 2)%nat
                 /\ snd r = inr (mkChatResponse reply conversationId)
             | Some _ =>
                 message_count (fst r) conversationId
                 = (message_count w conversationId + 1)%nat
                 /\ exists e, snd r = inl e
             end
         | inl _ =>
             message_count (fst r) conversationId
             = (message_count w conversationId + 1)%nat
             /\ exists e, snd r = inl e
         end.
Proof.
  intros clock llm w text cid user c Hwf Hc Ht r.
  pose proof (chatWithLexi_run clock llm text cid user w c Ht Hc (wf_content w Hwf))
    as Hrun.
  cbv zeta in Hrun. fold r in Hrun.
  pose proof (references_below_next w cid c Hwf Hc) as Hrefs.
  assert (Hlen1 : List.length (c_messages (add_reference (next_id w) (clock (S (ticks w))) c))
                  = (List.length (c_messages c) + 1)%nat).
  { cbn [add_reference c_messages].
    rewrite length_addToSet_fresh by (apply mem_fresh; exact Hrefs). lia. }
  match type of Hrun with
  | _ = match llm ?q with _ => _ end => exists q; destruct (llm q) as [msg|reply]
  end.
  - rewrite Hrun. cbn [fst snd llm_log messages_coll].
    split; [reflexivity |].
    split; [apply in_or_app; right; left; reflexivity |].
    split; [| eexists; reflexivity].
    eapply message_count_after;
      [exact Hc | apply find_conversation_updated; exact Hc | exact Hlen1].
  - destruct (validate_message (r_role reply) (r_content reply)) as [e|].
    + rewrite Hrun. cbn [fst snd llm_log messages_coll].
      split; [reflexivity |].
      split; [apply in_or_app; right; left; reflexivity |].
      split; [| eexists; reflexivity].
      eapply message_count_after;
        [exact Hc | apply find_conversation_updated; exact Hc | exact Hlen1].
    + rewrite Hrun. cbn [fst snd llm_log messages_coll].
      split; [reflexivity |].
      split; [apply in_or_app; left; apply in_or_app; right; left; reflexivity |].
      split; [| reflexivity].
      eapply message_count_after; [exact Hc | |].
      * unfold find_conversation in *. cbn [conversations_coll].
        fold (has_id cid) in *.
        rewrite !findOne_updateOne by (intros x; apply has_id_add_reference).
        rewrite Hc. reflexivity.
      * cbn [add_reference c_messages] in *.
        rewrite length_addToSet_fresh; [lia |].
        apply mem_fresh. unfold addToSet.
        rewrite (mem_fresh _ _ Hrefs). apply Forall_app. split.
        -- eapply Forall_impl; [| exact Hrefs]. intros i Hi. cbv beta in Hi. lia.
        -- constructor; [lia | constructor].
Qed.


Lemma sample_world_wf : wf_world Sample.world.
Proof.
  constructor; simpl.
  - constructor.
  - repeat constructor.
  - constructor.
  - constructor.
Qed.

Lemma turn_adds_one_or_two_messages_witness :
  message_count
    (fst (chatWithLexi Sample.clock Sample.answering (lit "Q") 100%N Sample.kid
            Sample.world)) 100%N = 2%nat.
Proof.
  destruct (turn_adds_one_or_two_messages Sample.clock Sample.answering Sample.world
              (lit "Q") 100%N Sample.kid
              (mkConversation 100%N [] 7%N (Time.date_utc 2024 6 12 7 0)
                 (Time.date_utc 2024 6 12 7 0))
              sample_world_wf eq_refl ltac:(discriminate))
    as (request & _ & _ & Hm).
  cbv beta iota delta [Sample.answering] in Hm.
  change (validate_message (r_role (mkReply (lit "assistant") (Some (lit "681"))))
            (r_content (mkReply (lit "assistant") (Some (lit "681")))))
    with (@None JsError) in Hm.
  exact (proj1 Hm).
Defined.

(** When the call of the model fails, the turn throws and the user's
    message alone is recorded. *)
Example failed_call_adds_one :
  let r := chatWithLexi Sample.clock Sample.failing (lit "Q") 100%N Sample.kid
             Sample.world in
  message_count (fst r) 100%N = 1%nat
  /\ snd r = inl (chat_error (lit "Rate limit reached"))
  /\ map m_role (messages_coll (fst r)) = [lit "user"].
Proof. repeat split; reflexivity. Qed.

(** ** The context window *)

(** C3. On a conversation that exists, the request that a turn sends to
    the model is the system turn followed by a window of the history
    that the store returned for the user's message, a history that is in
    chronological order: when the history has at least 20 messages the
    window has exactly 20 entries, the turns of its last 20 messages in
    the same order, and when it has fewer the window is the turns of the
    whole history. *)
Theorem context_window_is_last_twenty :
  forall (clock : nat -> Z) (llm : list Turn -> jsstring + Reply) (w : World)
         (text : jsstring) (conversationId : ObjectId) (user : User)
         (c : Conversation),
    wf_world w ->
    find_conversation w conversationId = Some c ->
    text <> [] ->
    exists (w1 w2 : World) (um : Message) (updated : Populated) (window : list Turn),
      newMessage clock (lit "user") (Some text) conversationId w = (w1, inr um)
      /\ updateConversation clock conversationId (m_id um) w1 = (w2, inr (Some updated))
      /\ llm_log (fst (chatWithLexi clock llm text conversationId user w))
         = llm_log w ++ [system_turn user :: window]
      /\ StronglySorted created_le (p_messages updated)
      /\ ((20 <= List.length (p_messages updated))%nat ->
          List.length window = 20%nat
          /\ exists older recent,
               p_messages updated = older ++ recent
               /\ List.length recent = 20%nat
               /\ window = map turn_of recent)
      /\ ((List.length (p_messages updated) < 20)%nat ->
          window = map turn_of (p_messages updated)).
Proof.
  intros clock llm w text cid user c Hwf Hc Ht.
  pose proof (newMessage_run clock (lit "user") (Some text) cid w
                (validate_user_message text Ht)) as Hn.
  cbv zeta in Hn. fold (user_message clock w text cid) in Hn.
  set (um := user_message clock w text cid) in *.
  set (w1 := mkWorld (messages_coll w ++ [um]) (conversations_coll w) (users_coll w)
               (N.succ (next_id w)) (S (ticks w)) (llm_log w)) in *.
  pose proof (updateConversation_run clock cid (m_id um) w1) as Hu.
  assert (Hc1 : find_conversation w1 cid = Some c) by exact Hc.
  rewrite Hc1 in Hu.
  set (history := populate_messages (addToSet (next_id w) (c_messages c))
                    (messages_coll w ++ [um])).
  eexists w1, _, um, _, (slice_last 20 (map turn_of history)).
  split; [exact Hn |]. split; [exact Hu |].
  cbn [p_messages populate add_reference c_messages w1 messages_coll um user_message m_id].
  fold um. fold history.
  split.
  { pose proof (chatWithLexi_run clock llm text cid user w c Ht Hc (wf_content w Hwf))
      as Hrun.
    cbv zeta in Hrun. fold um in Hrun. fold history in Hrun. rewrite Hrun.
    destruct (llm _) as [msg|reply]; [reflexivity |].
    destruct (validate_message _ _); reflexivity. }
  split; [apply populate_messages_sorted |].
  rewrite slice_last_map. split.
  - intros Hlen. destruct (slice_last_long 20 history Hlen) as (older & Hsplit & Hl).
    split; [rewrite length_map; exact Hl |].
    exists older, (slice_last 20 history). repeat split; assumption.
  - intros Hlen. rewrite slice_last_short by lia. reflexivity.
Qed.

(** In the sample store the conversation is empty: the window of the
    first turn is that turn alone. *)
Lemma context_window_is_last_twenty_witness :
  llm_log (fst (chatWithLexi Sample.clock Sample.answering (lit "Q") 100%N Sample.kid
                  Sample.world))
  = [[system_turn Sample.kid; mkTurn (lit "user") [mkBlock (lit "text") (lit "Q")]]].
Proof.
  destruct (context_window_is_last_twenty Sample.clock Sample.answering Sample.world
              (lit "Q") 100%N Sample.kid
              (mkConversation 100%N [] 7%N (Time.date_utc 2024 6 12 7 0)
                 (Time.date_utc 2024 6 12 7 0))
              sample_world_wf eq_refl ltac:(discriminate))
    as (w1 & w2 & um & updated & window & Hn & Hu & Hlog & _ & _ & Hshort).
  rewrite Hlog.
  injection Hn as <- <-. injection Hu as _ <-.
  rewrite Hshort by (vm_compute; lia).
  reflexivity.
Defined.


(** ** The handlers *)

Lemma get_length_string (s : jsstring) (w : World) :
  get_length (JString s) w = (w, inr (str_length s)).
Proof. reflexivity. Qed.

Lemma getChildInfoById_found (userId : ObjectId) (w : World) (user : User) :
  findOne (fun u => N.eqb (u_id u) userId) (users_coll w) = Some user ->
  getChildInfoById userId w = (w, inr user).
Proof. intros H. unfold getChildInfoById. rewrite H. reflexivity. Qed.

(** C9. The text handler answers a user input that is not a string, is
    the empty string or is longer than 4096 with an error of status 400
    (an HttpError) and leaves the world as it was, so no message is
    stored; for any other input, a non-empty string of at most 4096,
    sent with a conversation id, it goes on to look the user up and to
    run the turn, which stores the user's message once the user is
    found. *)
Theorem text_input_is_validated :
  forall (clock : nat -> Z) (llm : list Turn -> jsstring + Reply) (w : World)
         (req : TextRequest),
    ((forall s, text_userInput req <> JString s)
     \/ text_userInput req = JString []
     \/ (exists s, text_userInput req = JString s /\ (4096 < List.length s)%nat) ->
     exists message details,
       post_text clock llm req w = (w, inl (HttpError 400 message details)))
    /\ (forall (s : jsstring) (conversationId : ObjectId),
          text_userInput req = JString s ->
          s <> [] ->
          (List.length s <= 4096)%nat ->
          text_conversationId req = Some conversationId ->
          post_text clock llm req w
          = bind (getChildInfoById (text_userId req))
              (fun user =>
                 bind (chatWithLexi clock llm s conversationId user)
                   (fun textChatResponse => ret (r_content (message textChatResponse))))
              w
          /\ forall user,
               findOne (fun u => N.eqb (u_id u) (text_userId req)) (users_coll w)
               = Some user ->
               In (user_message clock w s conversationId)
                 (messages_coll (fst (post_text clock llm req w)))).
Proof.
  intros clock llm w req. split.
  - intros Hbad. unfold post_text.
    destruct (text_conversationId req) as [cid|]; [| eexists; eexists; reflexivity].
    destruct (negb (str_eqb (typeof (text_userInput req)) (lit "string"))
              || is_empty_string (text_userInput req)) eqn:Hg;
      [eexists; eexists; reflexivity |].
    apply string_guard_spec in Hg. destruct Hg as (s & Hs & Hne).
    destruct Hbad as [Hbad | [Hbad | (s' & Hs' & Hlen)]].
    + exfalso. apply (Hbad s). exact Hs.
    + congruence.
    + rewrite Hs' in *. injection Hs as <-.
      rewrite (bind_ok _ _ _ _ _ (get_length_string s' w)).
      unfold str_length. rewrite gt_numbers.
      replace (4096 <? Z.of_nat (List.length s')) with true
        by (symmetry; apply Z.ltb_lt; lia).
      eexists; eexists; reflexivity.
  - intros s cid Hs Hne Hlen Hcid.
    assert (Hpost :
      post_text clock llm req w
      = bind (getChildInfoById (text_userId req))
          (fun user =>
             bind (chatWithLexi clock llm s cid user)
               (fun textChatResponse => ret (r_content (message textChatResponse))))
          w).
    { unfold post_text. rewrite Hcid, Hs.
      replace (negb (str_eqb (typeof (JString s)) (lit "string"))
               || is_empty_string (JString s)) with false
        by (symmetry; apply string_guard_spec; eexists; split; [reflexivity | exact Hne]).
      rewrite (bind_ok _ _ _ _ _ (get_length_string s w)).
      unfold str_length. rewrite gt_numbers.
      replace (4096 <? Z.of_nat (List.length s)) with false
        by (symmetry; apply Z.ltb_ge; lia).
      reflexivity. }
    split; [exact Hpost |].
    intros user Hu. rewrite Hpost.
    rewrite (bind_ok _ _ _ _ _ (getChildInfoById_found _ w user Hu)).
    destruct (chatWithLexi_stores_user_message clock llm s cid user w Hne)
      as [rest Hrest].
    unfold bind.
    destruct (chatWithLexi clock llm s cid user w) as [w' [e|r]]; cbn [fst ret] in *;
      rewrite Hrest; apply in_or_app; right; left; reflexivity.
Qed.

(** A number is refused and stores nothing; a string of 4096 characters
    passes and its message is stored. *)
Lemma text_input_is_validated_witness :
  (exists message details,
      post_text Sample.clock Sample.answering
        (mkTextRequest (JNumber (num_of_Z 5)) (Some 100%N) 7%N) Sample.world
      = (Sample.world, inl (HttpError 400 message details)))
  /\ In (user_message Sample.clock Sample.world (repeat 65%N 4096) 100%N)
        (messages_coll
           (fst (post_text Sample.clock Sample.answering
                   (mkTextRequest (JString (repeat 65%N 4096)) (Some 100%N) 7%N)
                   Sample.world))).
Proof.
  split.
  - apply (proj1 (text_input_is_validated Sample.clock Sample.answering Sample.world
                    (mkTextRequest (JNumber (num_of_Z 5)) (Some 100%N) 7%N))).
    left. intros s. discriminate.
  - apply (proj2 (text_input_is_validated Sample.clock Sample.answering Sample.world
                    (mkTextRequest (JString (repeat 65%N 4096)) (Some 100%N) 7%N))
             (repeat 65%N 4096) 100%N eq_refl ltac:(discriminate)
             ltac:(rewrite repeat_length; lia) eq_refl)
      with (user := Sample.kid).
    reflexivity.
Defined.

(** C10. In the voice handler the test [typeof textUserInput.length > 1000]
    compares the string that [typeof] yields with 1000 and is false of
    every transcription; the handler never throws 'User question is too
    long.'; and a transcription of any length, when it is a non-empty
    string, goes on to the turn, whose user message is stored once the
    user is found. *)
Theorem voice_length_guard_is_dead :
  forall (clock : nat -> Z) (llm : list Turn -> jsstring + Reply)
         (transcribe : jsstring -> jsstring + JsVal),
    (forall s : jsstring,
        typeof (str_length s) = lit "number"
        /\ StringToNumber (lit "number") = NaN
        /\ gt (JString (typeof (str_length s))) (JNumber (num_of_Z 1000)) = false)
    /\ (forall (req : VoiceRequest) (w : World) (status : Z) (details : option jsstring),
          snd (post_voice clock llm transcribe req w)
          <> inl (HttpError status (lit "User question is too long.") details))
    /\ (forall (req : VoiceRequest) (w : World) (conversationId : ObjectId)
               (path s : jsstring) (user : User),
          voice_conversationId req = Some conversationId ->
          voice_file req = Some path ->
          transcribe path = inr (JString s) ->
          s <> [] ->
          findOne (fun u => N.eqb (u_id u) (voice_userId req)) (users_coll w) = Some user ->
          In (user_message clock w s conversationId)
            (messages_coll (fst (post_voice clock llm transcribe req w)))).
Proof.
  intros clock llm transcribe. split; [| split].
  - intros s. repeat split; reflexivity.
  - intros req w status details. unfold post_voice.
    destruct (voice_conversationId req) as [cid|]; [| discriminate].
    destruct (voice_file req) as [path|]; [| discriminate].
    unfold bind at 1. unfold transcribeAudio.
    destruct (transcribe path) as [msg|v]; [discriminate |].
    cbn [ret].
    destruct (negb (str_eqb (typeof v) (lit "string")) || is_empty_string v);
      [discriminate |].
    unfold bind at 1.
    destruct (get_length v w) as [w0 [e|len]] eqn:Hlen.
    { destruct v; try discriminate; cbn [get_length throw] in Hlen;
        injection Hlen as <- <-; discriminate. }
    rewrite typeof_never_gt.
    unfold bind at 1. unfold getChildInfoById.
    destruct (findOne _ (users_coll w0)) as [user|]; [| discriminate].
    unfold bind at 1.
    destruct (chatWithLexi clock llm (as_string v) cid user w0) as [w' [e|r]] eqn:Hchat.
    { pose proof (chatWithLexi_error clock llm (as_string v) cid user w0 e) as He.
      rewrite Hchat in He. destruct (He eq_refl) as (d & ->). discriminate. }
    destruct (invalid_answer (r_content (message r))); discriminate.
  - intros req w cid path s user Hcid Hfile Htr Hne Hu.
    unfold post_voice. rewrite Hcid, Hfile.
    unfold bind at 1. unfold transcribeAudio. rewrite Htr. cbn [ret].
    replace (negb (str_eqb (typeof (JString s)) (lit "string"))
             || is_empty_string (JString s)) with false
      by (symmetry; apply string_guard_spec; eexists; split; [reflexivity | exact Hne]).
    rewrite (bind_ok _ _ _ _ _ (get_length_string s w)).
    rewrite typeof_never_gt.
    rewrite (bind_ok _ _ _ _ _ (getChildInfoById_found _ w user Hu)).
    cbn [as_string].
    destruct (chatWithLexi_stores_user_message clock llm s cid user w Hne)
      as [rest Hrest].
    unfold bind.
    destruct (chatWithLexi clock llm s cid user w) as [w' [e|r]]; cbn [fst] in *.
    + rewrite Hrest. apply in_or_app; right; left; reflexivity.
    + destruct (invalid_answer (r_content (message r))); cbn [fst throw ret];
        rewrite Hrest; apply in_or_app; right; left; reflexivity.
Qed.

(** A transcription of 1001 characters is answered. *)
Lemma voice_length_guard_is_dead_witness :
  In (user_message Sample.clock Sample.world (repeat 65%N 1001) 100%N)
    (messages_coll
       (fst (post_voice Sample.clock Sample.answering (Sample.hearing (repeat 65%N 1001))
               (mkVoiceRequest (Some 100%N) (Some (lit "tmp/1.ogg")) 7%N)
               Sample.world))).
Proof.
  apply (proj2 (proj2 (voice_length_guard_is_dead Sample.clock Sample.answering
                         (Sample.hearing (repeat 65%N 1001))))
           (mkVoiceRequest (Some 100%N) (Some (lit "tmp/1.ogg")) 7%N) Sample.world
           100%N (lit "tmp/1.ogg") (repeat 65%N 1001) Sample.kid);
    try reflexivity.
  discriminate.
Defined.

(** ** A long conversation

    With twenty messages stored, the user's new one is the twenty-first
    of the history: the request holds the system turn and twenty turns,
    and the oldest message is the one left out. *)
Example window_of_twenty_one :
  let w := fst (chatWithLexi Sample.clock Sample.answering (lit "Q21") 100%N Sample.kid
                  Sample.world20) in
  message_count w 100%N = 22%nat
  /\ exists window,
       llm_log w = [system_turn Sample.kid :: window]
       /\ List.length window = 20%nat
       /\ hd_error window = Some (turn_of (Sample.msg 2%N 2000))
       /\ last window (system_turn Sample.kid)
          = mkTurn (lit "user") [mkBlock (lit "text") (lit "Q21")].
Proof.
  cbv zeta. split; [vm_compute; reflexivity |].
  eexists. split; [vm_compute; reflexivity |].
  split; [reflexivity |]. split; vm_compute; reflexivity.
Qed.

(** * Further properties *)

(** ** More on dates *)

Section MoreTimeFacts.

Import Time.

Lemma MS_PER_DAY_pos : 0 < MS_PER_DAY.
Proof. reflexivity. Qed.

(** The start of the ISO week on the grid of weeks that begins on
    Monday 1969-12-29. *)
Lemma startOf_isoWeek_grid (m : Z) :
  startOf_isoWeek m = (7 * ((m / MS_PER_DAY + 3) / 7) - 3) * MS_PER_DAY.
Proof.
  unfold startOf_isoWeek. rewrite startOf_day_div.
  set (d := m / MS_PER_DAY).
  assert (Hk : isoWeekday m - 1 = (d + 3) mod 7).
  { unfold isoWeekday, day. fold d.
    pose proof (Z.mod_pos_bound (d + 4) 7 ltac:(lia)) as Hb.
    pose proof (Z.mod_pos_bound (d + 3) 7 ltac:(lia)) as Hb3.
    pose proof (Z.div_mod (d + 4) 7 ltac:(lia)) as H4.
    pose proof (Z.div_mod (d + 3) 7 ltac:(lia)) as H3.
    destruct (Z.eqb_spec ((d + 4) mod 7) 0) as [H0|H0]; lia. }
  pose proof (Z.div_mod (d + 3) 7 ltac:(lia)) as H3.
  replace (d * MS_PER_DAY - (isoWeekday m - 1) * MS_PER_DAY)
    with ((d - (isoWeekday m - 1)) * MS_PER_DAY) by lia.
  f_equal. lia.
Qed.

Lemma startOf_day_mono (a b : Z) : a <= b -> startOf_day a <= startOf_day b.
Proof.
  intros H. rewrite !startOf_day_div.
  pose proof (Z.div_le_mono a b MS_PER_DAY MS_PER_DAY_pos H).
  pose proof MS_PER_DAY_pos. nia.
Qed.

Lemma startOf_isoWeek_mono (a b : Z) : a <= b -> startOf_isoWeek a <= startOf_isoWeek b.
Proof.
  intros H. rewrite !startOf_isoWeek_grid.
  pose proof (Z.div_le_mono a b MS_PER_DAY MS_PER_DAY_pos H) as Hd.
  pose proof (Z.div_le_mono (a / MS_PER_DAY + 3) (b / MS_PER_DAY + 3) 7 ltac:(lia)
                ltac:(lia)) as Hw.
  pose proof MS_PER_DAY_pos. nia.
Qed.

Lemma startOf_day_shift (m k : Z) :
  startOf_day (m + k * MS_PER_DAY) = startOf_day m + k * MS_PER_DAY.
Proof.
  unfold startOf_day. rewrite Z.mod_add by (unfold MS_PER_DAY; lia). lia.
Qed.


Lemma isoWeekday_shift_week (m : Z) : isoWeekday (m - 7 * MS_PER_DAY) = isoWeekday m.
Proof.
  unfold isoWeekday, day.
  replace (m - 7 * MS_PER_DAY) with (m + (-7) * MS_PER_DAY) by lia.
  rewrite Z.div_add by (unfold MS_PER_DAY; lia).
  replace (m / MS_PER_DAY + -7 + 4) with (m / MS_PER_DAY + 4 + (-1) * 7) by lia.
  rewrite Z.mod_add by lia. reflexivity.
Qed.

(** The week of [m] starts [isoWeekday m - 1] days before its day. *)
Lemma startOf_day_in_week (m : Z) :
  startOf_day m = startOf_isoWeek m + (isoWeekday m - 1) * MS_PER_DAY.
Proof. unfold startOf_isoWeek. lia. Qed.


Lemma getStartOfTodayUTC_mono (a b offset : Z) :
  a <= b -> getStartOfTodayUTC a offset <= getStartOfTodayUTC b offset.
Proof.
  intros H. unfold getStartOfTodayUTC, add_minutes.
  pose proof (startOf_day_mono (subtract_minutes a offset) (subtract_minutes b offset)
                ltac:(unfold subtract_minutes; lia)).
  lia.
Qed.

(** At one reading the current week starts no later than today, and
    at most six days before. *)
Lemma week_start_le_today_start (nowUTC offset : Z) :
  getStartOfCurrentWeekUTC nowUTC offset <= getStartOfTodayUTC nowUTC offset
  <= getStartOfCurrentWeekUTC nowUTC offset + 6 * MS_PER_DAY.
Proof.
  pose proof (isoWeekday_range (subtract_minutes nowUTC offset)) as Hr.
  pose proof (startOf_day_in_week (subtract_minutes nowUTC offset)) as Hd.
  pose proof MS_PER_DAY_pos.
  unfold getStartOfTodayUTC, getStartOfCurrentWeekUTC, add_minutes. nia.
Qed.

Lemma getStartOfTodayUTC_bounds (nowUTC offset : Z) :
  getStartOfTodayUTC nowUTC offset <= nowUTC
  < getStartOfTodayUTC nowUTC offset + MS_PER_DAY.
Proof.
  destruct (startOf_day_spec (subtract_minutes nowUTC offset)) as (_ & Hb).
  unfold getStartOfTodayUTC, add_minutes, subtract_minutes in *. lia.
Qed.


Lemma getStartOfTodayUTC_within_a_day (a b offset : Z) :
  b <= a + MS_PER_DAY ->
  getStartOfTodayUTC b offset <= getStartOfTodayUTC a offset + MS_PER_DAY.
Proof.
  intros H.
  pose proof (getStartOfTodayUTC_mono b (a + MS_PER_DAY) offset H) as Hm.
  unfold getStartOfTodayUTC, add_minutes in *.
  replace (subtract_minutes (a + MS_PER_DAY) offset)
    with (subtract_minutes a offset + 1 * MS_PER_DAY) in Hm
    by (unfold subtract_minutes; lia).
  rewrite startOf_day_shift in Hm. lia.
Qed.

End MoreTimeFacts.

(** X1. At one clock reading the start of the previous week is seven
    days before the start of the current week; seen in local time it is
    a midnight and a Monday; and the previous week ends where the
    current one starts, which is not after now. *)
Theorem previous_week_is_the_week_before :
  forall nowUTC timezoneOffset : Z,
    let cur := Time.getStartOfCurrentWeekUTC nowUTC timezoneOffset in
    let prev := Time.getStartOfPreviousWeekUTC nowUTC timezoneOffset in
    prev = cur - 7 * Time.MS_PER_DAY
    /\ Time.to_local prev timezoneOffset mod Time.MS_PER_DAY = 0
    /\ Time.isoWeekday (Time.to_local prev timezoneOffset) = 1
    /\ prev < cur <= nowUTC.
Proof.
  intros nowUTC off cur prev.
  destruct (startOf_isoWeek_spec (Time.to_local nowUTC off)) as (Hm & Hw & Hr).
  assert (Hcur : Time.to_local cur off = Time.startOf_isoWeek (Time.to_local nowUTC off)).
  { unfold cur, Time.getStartOfCurrentWeekUTC. apply to_local_add_minutes. }
  assert (Hprev : prev = cur - 7 * Time.MS_PER_DAY) by reflexivity.
  assert (Hloc : Time.to_local prev off
                 = Time.startOf_isoWeek (Time.to_local nowUTC off) - 7 * Time.MS_PER_DAY).
  { rewrite Hprev, <- Hcur. unfold Time.to_local. lia. }
  split; [exact Hprev |].
  split.
  { rewrite Hloc.
    replace (Time.startOf_isoWeek (Time.to_local nowUTC off) - 7 * Time.MS_PER_DAY)
      with (Time.startOf_isoWeek (Time.to_local nowUTC off) + (-7) * Time.MS_PER_DAY)
      by lia.
    rewrite Z.mod_add by (unfold Time.MS_PER_DAY; lia). exact Hm. }
  split; [rewrite Hloc, isoWeekday_shift_week; exact Hw |].
  pose proof MS_PER_DAY_pos.
  unfold Time.to_local in *. lia.
Qed.

(** X2. The start of today, seen in local time, is the midnight of the
    local day that now falls in; now is less than a day after it; and
    the start of yesterday is exactly one day earlier. *)
Theorem today_starts_at_local_midnight :
  forall nowUTC timezoneOffset : Z,
    let today := Time.getStartOfTodayUTC nowUTC timezoneOffset in
    let yesterday := Time.getStartOfYesterdayUTC nowUTC timezoneOffset in
    Time.to_local today timezoneOffset mod Time.MS_PER_DAY = 0
    /\ today <= nowUTC < today + Time.MS_PER_DAY
    /\ yesterday = today - Time.MS_PER_DAY
    /\ Time.to_local yesterday timezoneOffset mod Time.MS_PER_DAY = 0.
Proof.
  intros nowUTC off today yesterday.
  destruct (startOf_day_spec (Time.to_local nowUTC off)) as (Hm & Hr).
  assert (Htoday : Time.to_local today off = Time.startOf_day (Time.to_local nowUTC off)).
  { unfold today, Time.getStartOfTodayUTC. apply to_local_add_minutes. }
  assert (Hy : yesterday = today - Time.MS_PER_DAY)
    by (unfold yesterday, today, Time.getStartOfYesterdayUTC, Time.getStartOfTodayUTC,
          Time.subtract_days; lia).
  split; [rewrite Htoday; exact Hm |].
  split; [unfold Time.to_local in *; lia |].
  split; [exact Hy |].
  replace (Time.to_local yesterday off)
    with (Time.startOf_day (Time.to_local nowUTC off) + (-1) * Time.MS_PER_DAY)
    by (rewrite Hy, <- Htoday; unfold Time.to_local; lia).
  rewrite Z.mod_add by (unfold Time.MS_PER_DAY; lia). exact Hm.
Qed.

(** X3. At one clock reading today starts a whole number of days after
    the current week does: as many as the local weekday is past Monday,
    between 0 and 6. *)
Theorem today_is_in_the_current_week :
  forall nowUTC timezoneOffset : Z,
    let k := Time.isoWeekday (Time.to_local nowUTC timezoneOffset) - 1 in
    0 <= k <= 6
    /\ Time.getStartOfTodayUTC nowUTC timezoneOffset
       = Time.getStartOfCurrentWeekUTC nowUTC timezoneOffset + k * Time.MS_PER_DAY
    /\ Time.getStartOfCurrentWeekUTC nowUTC timezoneOffset
       <= Time.getStartOfTodayUTC nowUTC timezoneOffset <= nowUTC.
Proof.
  intros nowUTC off k.
  pose proof (isoWeekday_range (Time.to_local nowUTC off)) as Hr.
  pose proof (startOf_day_in_week (Time.to_local nowUTC off)) as Hd.
  destruct (startOf_day_spec (Time.to_local nowUTC off)) as (_ & Hb).
  pose proof MS_PER_DAY_pos.
  unfold Time.getStartOfTodayUTC, Time.getStartOfCurrentWeekUTC, Time.add_minutes,
    Time.subtract_minutes, Time.to_local in *.
  subst k. split; [lia |]. split; [lia | nia].
Qed.

(** X4. A later clock reading never gives an earlier boundary: each of
    the five functions of time.js is non-decreasing in the reading. *)
Theorem boundaries_follow_the_clock :
  forall now1 now2 timezoneOffset daysBefore : Z,
    now1 <= now2 ->
    Time.getStartOfCurrentWeekUTC now1 timezoneOffset
    <= Time.getStartOfCurrentWeekUTC now2 timezoneOffset
    /\ Time.getStartOfPreviousWeekUTC now1 timezoneOffset
       <= Time.getStartOfPreviousWeekUTC now2 timezoneOffset
    /\ Time.getStartOfTodayUTC now1 timezoneOffset
       <= Time.getStartOfTodayUTC now2 timezoneOffset
    /\ Time.getStartOfYesterdayUTC now1 timezoneOffset
       <= Time.getStartOfYesterdayUTC now2 timezoneOffset
    /\ Time.getDaysBeforeUTC now1 timezoneOffset daysBefore
       <= Time.getDaysBeforeUTC now2 timezoneOffset daysBefore.
Proof.
  intros now1 now2 off days H.
  assert (Hl : Time.subtract_minutes now1 off <= Time.subtract_minutes now2 off)
    by (unfold Time.subtract_minutes; lia).
  pose proof (startOf_isoWeek_mono _ _ Hl) as Hw.
  pose proof (startOf_day_mono _ _ Hl) as Hd.
  unfold Time.getStartOfCurrentWeekUTC, Time.getStartOfPreviousWeekUTC,
    Time.getStartOfTodayUTC, Time.getStartOfYesterdayUTC, Time.getDaysBeforeUTC,
    Time.add_minutes, Time.subtract_days.
  repeat split; lia.
Qed.

Lemma boundaries_follow_the_clock_witness :
  Time.getStartOfTodayUTC (Time.date_utc 2024 6 12 8 0) (-120)
  <= Time.getStartOfTodayUTC (Time.date_utc 2024 6 12 23 0) (-120).
Proof.
  apply (boundaries_follow_the_clock (Time.date_utc 2024 6 12 8 0)
           (Time.date_utc 2024 6 12 23 0) (-120) 15).
  vm_compute. discriminate.
Defined.

(** X5. At one clock reading a cutoff of 13 days or more is never after
    the start of the previous week, so the 15-day retention of the
    statistics handler reaches at least two days behind every bucket;
    12 days would not do: on a Sunday the cutoff falls on the Tuesday of
    the previous week. *)
Theorem retention_reaches_behind_the_previous_week :
  forall nowUTC timezoneOffset daysBefore : Z,
    13 <= daysBefore ->
    Time.getDaysBeforeUTC nowUTC timezoneOffset daysBefore
    <= Time.getStartOfPreviousWeekUTC nowUTC timezoneOffset
    /\ Time.getDaysBeforeUTC nowUTC timezoneOffset 15 + 2 * Time.MS_PER_DAY
       <= Time.getStartOfPreviousWeekUTC nowUTC timezoneOffset
    /\ Time.getStartOfPreviousWeekUTC (Time.date_utc 2024 6 16 12 0) 0
       < Time.getDaysBeforeUTC (Time.date_utc 2024 6 16 12 0) 0 12.
Proof.
  intros nowUTC off days Hdays.
  pose proof (isoWeekday_range (Time.subtract_minutes nowUTC off)) as Hr.
  pose proof (startOf_day_in_week (Time.subtract_minutes nowUTC off)) as Hd.
  pose proof MS_PER_DAY_pos.
  unfold Time.getDaysBeforeUTC, Time.getStartOfPreviousWeekUTC, Time.add_minutes,
    Time.subtract_days.
  split; [nia |]. split; [nia | reflexivity].
Qed.

Lemma retention_reaches_behind_the_previous_week_witness :
  Time.getDaysBeforeUTC (Time.date_utc 2024 6 12 8 0) (-120) 15
  <= Time.getStartOfPreviousWeekUTC (Time.date_utc 2024 6 12 8 0) (-120).
Proof.
  apply (retention_reaches_behind_the_previous_week (Time.date_utc 2024 6 12 8 0)
           (-120) 15).
  lia.
Defined.

(** ** More on the statistics and the retention *)












(** ** The statistics handler *)

Lemma dated_make (t : Z) :
  - Dated.MAX_TIME <= t <= Dated.MAX_TIME -> Dated.make t = Some t.
Proof.
  intros H. unfold Dated.make, Dated.in_range.
  destruct (Z.leb_spec (- Dated.MAX_TIME) t); [| lia].
  destruct (Z.leb_spec t Dated.MAX_TIME); [reflexivity | lia].
Qed.

Lemma dated_make_out (t : Z) :
  Dated.MAX_TIME < Z.abs t -> Dated.make t = None.
Proof.
  intros H. unfold Dated.make, Dated.in_range.
  destruct (Z.leb_spec (- Dated.MAX_TIME) t); [| reflexivity].
  destruct (Z.leb_spec t Dated.MAX_TIME); [lia | reflexivity].
Qed.

Lemma dated_make_some (t u : Z) : Dated.make t = Some u -> u = t.
Proof.
  unfold Dated.make. destruct (Dated.in_range t); [| discriminate].
  intros [= <-]. reflexivity.
Qed.

Lemma dated_apply_some (f : Z -> Z) (m : option Z) (u : Z) :
  Dated.apply f m = Some u -> exists t, m = Some t /\ u = f t.
Proof.
  destruct m as [t|]; [| discriminate]. cbn [Dated.apply]. intros H.
  exists t. split; [reflexivity | exact (dated_make_some _ _ H)].
Qed.

(** The first step of the five functions: the local time of a reading
    that is too far from the offset is no Date. *)
Lemma dated_local_out (now offset : Z) :
  2 * Dated.MAX_TIME < Z.abs offset * Time.MS_PER_MINUTE ->
  Dated.apply (fun m => Time.subtract_minutes m offset) (Dated.make now) = None.
Proof.
  intros H. unfold Dated.make at 1.
  destruct (Dated.in_range now) eqn:E; [| reflexivity].
  cbn [Dated.apply]. apply dated_make_out.
  unfold Dated.in_range in E. apply andb_true_iff in E. destruct E as (E1 & E2).
  apply Z.leb_le in E1, E2.
  unfold Time.subtract_minutes, Time.MS_PER_MINUTE in *. lia.
Qed.

Lemma stats_dates_invalid_offset (clock : nat -> Z) (n : nat) (offset : Z) :
  2 * Dated.MAX_TIME < Z.abs offset * Time.MS_PER_MINUTE ->
  stats_dates_valid clock n offset = false.
Proof.
  intros H. unfold stats_dates_valid, Dated.getStartOfCurrentWeekUTC.
  cbv zeta. rewrite (dated_local_out _ _ H). reflexivity.
Qed.

(** Whatever the five functions give as a valid Date is what [Time]
    computes. *)
Lemma dated_agrees (now offset days : Z) :
  (forall t, Dated.getStartOfCurrentWeekUTC now offset = Some t ->
             t = Time.getStartOfCurrentWeekUTC now offset)
  /\ (forall t, Dated.getStartOfPreviousWeekUTC now offset = Some t ->
                t = Time.getStartOfPreviousWeekUTC now offset)
  /\ (forall t, Dated.getStartOfTodayUTC now offset = Some t ->
                t = Time.getStartOfTodayUTC now offset)
  /\ (forall t, Dated.getStartOfYesterdayUTC now offset = Some t ->
                t = Time.getStartOfYesterdayUTC now offset)
  /\ (forall t, Dated.getDaysBeforeUTC now offset days = Some t ->
                t = Time.getDaysBeforeUTC now offset days).
Proof.
  repeat split; intros t H;
    unfold Dated.getStartOfCurrentWeekUTC, Dated.getStartOfPreviousWeekUTC,
      Dated.getStartOfTodayUTC, Dated.getStartOfYesterdayUTC,
      Dated.getDaysBeforeUTC in H; cbv zeta in H;
    repeat (apply dated_apply_some in H; destruct H as (? & H & ->));
    apply dated_make_some in H; subst; reflexivity.
Qed.

(** X9. The statistics handler refuses a body without [timezoneOffset],
    and one whose offset is 0, with a 400; when the targets cannot be
    read it throws their error; in both cases nothing is computed and
    nothing is deleted: the world is as it was. *)
Theorem stats_handler_refuses_offset_zero :
  forall (clock : nat -> Z) (Targets : Type)
         (getKidTargets : ObjectId -> ObjectId -> World -> Result Targets)
         (req : StatsRequest) (w : World),
    (stats_timezoneOffset req = None \/ stats_timezoneOffset req = Some 0 ->
     post_get_stats clock Targets getKidTargets req w
     = (w, inl (Handled (HttpError 400 (lit "timezoneOffset not provided.") None))))
    /\ (forall (z : Z) (e : JsError),
          stats_timezoneOffset req = Some z -> z <> 0 ->
          getKidTargets (stats_userId req) (stats_kidId req) w = inl e ->
          post_get_stats clock Targets getKidTargets req w = (w, inl (Handled e))).
Proof.
  intros clock Targets getKidTargets req w. split.
  - intros [H|H]; unfold post_get_stats; rewrite H; reflexivity.
  - intros z e Hz Hne He. unfold post_get_stats. rewrite Hz.
    cbn [no_offset]. destruct (Z.eqb_spec z 0); [contradiction |].
    rewrite He. reflexivity.
Qed.

Lemma stats_handler_refuses_offset_zero_witness :
  post_get_stats Sample.clock unit (fun _ _ _ => inr tt)
    (mkStatsRequest 7%N 7%N (Some 0)) Sample.world
  = (Sample.world,
     inl (Handled (HttpError 400 (lit "timezoneOffset not provided.") None))).
Proof.
  apply (proj1 (stats_handler_refuses_offset_zero Sample.clock unit (fun _ _ _ => inr tt)
                  (mkStatsRequest 7%N 7%N (Some 0)) Sample.world)).
  right. reflexivity.
Defined.

(** X10. With an offset, the targets, and boundaries that are all valid
    Dates (the four of the figures and the cutoff of the sweep), the
    statistics handler returns the figures computed before the sweep,
    and the sweep, run as its fifth clock read, spares every
    conversation that one of the four figures counted, provided that
    read is at most a day after each of the four before it; it adds no
    conversation. *)
Theorem stats_handler_sweep_spares_the_counted :
  forall (clock : nat -> Z) (Targets : Type)
         (getKidTargets : ObjectId -> ObjectId -> World -> Result Targets)
         (req : StatsRequest) (w : World) (z : Z) (targets : Targets),
    stats_timezoneOffset req = Some z ->
    z <> 0 ->
    getKidTargets (stats_userId req) (stats_kidId req) w = inr targets ->
    stats_dates_valid clock (ticks w) z = true ->
    sweep_date_valid clock (4 + ticks w) z 15 = true ->
    (forall k, (k < 4)%nat ->
               clock (4 + ticks w)%nat <= clock (k + ticks w)%nat + Time.MS_PER_DAY) ->
    exists (stats : KidStats) (w' : World),
      post_get_stats clock Targets getKidTargets req w = (w', inr (targets, stats))
      /\ snd (getKidStats clock (stats_kidId req) z w) = inr stats
      /\ (forall (b : Bucket) (c : Conversation),
             In c (conversations_coll w) ->
             stats_match (stats_kidId req)
               (fst (bucket_range clock (ticks w) z b))
               (snd (bucket_range clock (ticks w) z b)) c = true ->
             In c (conversations_coll w'))
      /\ (forall c, In c (conversations_coll w') -> In c (conversations_coll w))
      /\ messages_coll w' = messages_coll w.
Proof.
  intros clock Targets getKidTargets req w z targets Hz Hne Ht Hv Hs Hclock.
  unfold post_get_stats. rewrite Hz. cbn [no_offset].
  destruct (Z.eqb_spec z 0); [contradiction |].
  rewrite Ht, Hv. cbn [negb].
  rewrite getKidStats_run. cbv zeta. cbn [ticks set_ticks].
  rewrite Hs. cbn [negb].
  rewrite deleteOlderThan_run.
  eexists; eexists. split; [reflexivity |]. split; [reflexivity |].
  cbn [conversations_coll messages_coll set_conversations set_ticks ticks].
  split; [| split; [| reflexivity]].
  - intros b c Hin Hm. apply In_deleteMany. split; [exact Hin |].
    destruct (older_match _ _ c) eqn:Ho; [| reflexivity]. exfalso.
    apply older_match_spec in Ho. destruct Ho as (_ & Hlt).
    apply stats_match_spec in Hm. rewrite <- surjective_pairing in Hm.
    destruct Hm as (_ & (Hlo & _) & _).
    pose proof MS_PER_DAY_pos as HD.
    pose proof (fun k (H : (k < 4)%nat) =>
                  getStartOfTodayUTC_within_a_day (clock (k + ticks w)%nat)
                    (clock (4 + ticks w)%nat) z (Hclock k H)) as Hday.
    pose proof (Hday 0%nat ltac:(lia)) as H0.
    pose proof (Hday 1%nat ltac:(lia)) as H1.
    pose proof (Hday 2%nat ltac:(lia)) as H2.
    pose proof (Hday 3%nat ltac:(lia)) as H3.
    cbn [Nat.add] in H0, H1, H2, H3, Hlt.
    pose proof (week_start_le_today_start (clock (ticks w)) z) as Hw0.
    pose proof (week_start_le_today_start (clock (S (ticks w))) z) as Hw1.
    assert (Hcut : Time.getDaysBeforeUTC (clock (S (S (S (S (ticks w)))))) z 15
                   = Time.getStartOfTodayUTC (clock (S (S (S (S (ticks w)))))) z
                     - 15 * Time.MS_PER_DAY) by reflexivity.
    destruct b; cbn [bucket_range fst] in Hlo;
      unfold Time.getStartOfPreviousWeekUTC, Time.getStartOfYesterdayUTC,
        Time.subtract_days in *;
      fold (Time.getStartOfCurrentWeekUTC (clock (S (ticks w))) z) in *;
      fold (Time.getStartOfTodayUTC (clock (S (S (S (ticks w))))) z) in *;
      lia.
  - intros c Hin. apply In_deleteMany in Hin. tauto.
Qed.

Lemma stats_handler_sweep_spares_the_counted_witness :
  exists (stats : KidStats) (w' : World),
    post_get_stats Sample.clock unit (fun _ _ _ => inr tt)
      (mkStatsRequest 7%N 7%N (Some (-120))) Sample.world = (w', inr (tt, stats)).
Proof.
  destruct (stats_handler_sweep_spares_the_counted Sample.clock unit
              (fun _ _ _ => inr tt) (mkStatsRequest 7%N 7%N (Some (-120)))
              Sample.world (-120) tt eq_refl ltac:(discriminate) eq_refl
              eq_refl eq_refl)
    as (stats & w' & H & _).
  - intros k Hk. unfold Sample.clock, Time.MS_PER_DAY. simpl ticks. lia.
  - exists stats, w'. exact H.
Defined.

(** X26. With an offset and the targets, but a boundary that is not a
    valid Date, the statistics handler throws the cast error of the
    query, which is answered as a 500: no figure is returned, and no
    conversation and no message is deleted.  An offset of more than
    twice the range of Dates, in milliseconds, makes the first boundary
    invalid whatever the clock shows. *)
Theorem stats_handler_throws_on_invalid_dates :
  forall (clock : nat -> Z) (Targets : Type)
         (getKidTargets : ObjectId -> ObjectId -> World -> Result Targets)
         (req : StatsRequest) (w : World) (z : Z) (targets : Targets),
    stats_timezoneOffset req = Some z ->
    z <> 0 ->
    getKidTargets (stats_userId req) (stats_kidId req) w = inr targets ->
    (stats_dates_valid clock (ticks w) z = false
     \/ sweep_date_valid clock (4 + ticks w) z 15 = false ->
     exists w' : World,
       post_get_stats clock Targets getKidTargets req w = (w', inl invalid_date)
       /\ conversations_coll w' = conversations_coll w
       /\ messages_coll w' = messages_coll w
       /\ stats_thrown_status invalid_date = 500)
    /\ (2 * Dated.MAX_TIME < Z.abs z * Time.MS_PER_MINUTE ->
        post_get_stats clock Targets getKidTargets req w
        = (set_ticks w (4 + ticks w), inl invalid_date)).
Proof.
  intros clock Targets getKidTargets req w z targets Hz Hne Ht.
  unfold post_get_stats. rewrite Hz. cbn [no_offset].
  destruct (Z.eqb_spec z 0); [contradiction |].
  rewrite Ht. split.
  - intros H.
    destruct (stats_dates_valid clock (ticks w) z) eqn:Hv; cbn [negb].
    + destruct H as [H|H]; [discriminate |].
      rewrite getKidStats_run. cbv zeta. cbn [ticks set_ticks].
      rewrite H. cbn [negb].
      eexists. split; [reflexivity |]. repeat split.
    + eexists. split; [reflexivity |]. repeat split.
  - intros H. rewrite (stats_dates_invalid_offset clock (ticks w) z H).
    reflexivity.
Qed.

Lemma stats_handler_throws_on_invalid_dates_witness :
  post_get_stats Sample.clock unit (fun _ _ _ => inr tt)
    (mkStatsRequest 7%N 7%N (Some 1000000000000000)) Sample.world
  = (set_ticks Sample.world 4, inl invalid_date).
Proof.
  apply (proj2 (stats_handler_throws_on_invalid_dates Sample.clock unit
                  (fun _ _ _ => inr tt)
                  (mkStatsRequest 7%N 7%N (Some 1000000000000000))
                  Sample.world 1000000000000000 tt eq_refl ltac:(discriminate)
                  eq_refl)).
  reflexivity.
Defined.

(** X27. For a clock reading within 4 * 10^15 ms of the epoch, an offset
    of at most 6 * 10^10 minutes and at most 10^6 days of retention,
    every boundary of utils/time.js is a valid Date, the one that the
    arithmetic on milliseconds gives. *)
Theorem ordinary_boundaries_are_valid_dates :
  forall now offset days : Z,
    Z.abs now <= 4000000000000000 ->
    Z.abs offset <= 60000000000 ->
    0 <= days <= 1000000 ->
    Dated.getStartOfCurrentWeekUTC now offset
    = Some (Time.getStartOfCurrentWeekUTC now offset)
    /\ Dated.getStartOfPreviousWeekUTC now offset
       = Some (Time.getStartOfPreviousWeekUTC now offset)
    /\ Dated.getStartOfTodayUTC now offset = Some (Time.getStartOfTodayUTC now offset)
    /\ Dated.getStartOfYesterdayUTC now offset
       = Some (Time.getStartOfYesterdayUTC now offset)
    /\ Dated.getDaysBeforeUTC now offset days
       = Some (Time.getDaysBeforeUTC now offset days).
Proof.
  intros now offset days Hn Ho Hd.
  pose proof (startOf_day_spec (Time.subtract_minutes now offset)) as (_ & Hday).
  pose proof (startOf_isoWeek_spec (Time.subtract_minutes now offset)) as Hweek.
  cbv zeta in Hweek. destruct Hweek as (_ & _ & Hweek).
  unfold Dated.getStartOfCurrentWeekUTC, Dated.getStartOfPreviousWeekUTC,
    Dated.getStartOfTodayUTC, Dated.getStartOfYesterdayUTC, Dated.getDaysBeforeUTC,
    Time.getStartOfCurrentWeekUTC, Time.getStartOfPreviousWeekUTC,
    Time.getStartOfTodayUTC, Time.getStartOfYesterdayUTC, Time.getDaysBeforeUTC.
  cbv zeta.
  repeat split;
    repeat (rewrite dated_make;
            [cbn [Dated.apply]
            | unfold Time.add_minutes, Time.subtract_days, Time.subtract_minutes,
                Time.MS_PER_MINUTE, Time.MS_PER_DAY, Dated.MAX_TIME in *; lia]);
    reflexivity.
Qed.

Lemma ordinary_boundaries_are_valid_dates_witness :
  Dated.getStartOfCurrentWeekUTC (Time.date_utc 2024 6 12 8 0) (-120)
  = Some (Time.date_utc 2024 6 9 22 0)
  /\ Dated.getDaysBeforeUTC (Time.date_utc 2024 6 12 8 0) (-120) 15
     = Some (Time.date_utc 2024 5 27 22 0).
Proof.
  destruct (ordinary_boundaries_are_valid_dates (Time.date_utc 2024 6 12 8 0)
              (-120) 15)
    as (Hw & _ & _ & _ & Hd).
  - vm_compute. discriminate.
  - vm_compute. discriminate.
  - lia.
  - split; [exact Hw | exact Hd].
Defined.

(** ** Every way a turn can end *)

Lemma validate_message_spec (role : jsstring) (input : option jsstring) :
  validate_message role input = None
  <-> In role role_enum /\ exists text, input = Some text /\ text <> [].
Proof.
  unfold validate_message.
  assert (Hrole : existsb (str_eqb role) role_enum = true <-> In role role_enum).
  { rewrite existsb_exists. split.
    - intros (x & Hx & He). destruct (str_eqb_spec role x); [subst; exact Hx | discriminate].
    - intros H. exists role. split; [exact H |].
      destruct (str_eqb_spec role role); congruence. }
  destruct (existsb (str_eqb role) role_enum); simpl.
  - destruct input as [[|c s]|]; split; try discriminate; try reflexivity.
    + intros (_ & t & Ht & Hne). congruence.
    + intros _. split; [apply Hrole; reflexivity |].
      eexists. split; [reflexivity | discriminate].
    + intros (_ & t & Ht & _). discriminate Ht.
  - split; [discriminate |]. intros (H & _). apply Hrole in H. discriminate H.
Qed.

Lemma validate_message_fails (role : jsstring) (input : option jsstring) (e : JsError) :
  validate_message role input = Some e -> exists m, e = ValidationError m.
Proof.
  unfold validate_message.
  destruct (negb _); [intros H; inversion H; eexists; reflexivity |].
  destruct input as [[|c s]|]; intros H; try discriminate;
    inversion H; eexists; reflexivity.
Qed.

Lemma mapM_to_turn_broken (l : list Message) (w : World) :
  ~ Forall (fun m => m_content m <> []) l ->
  mapM to_turn l w
  = (w, inl (TypeError (lit "Cannot read properties of undefined (reading 'type')"))).
Proof.
  induction l as [|m l IH]; intros H; [exfalso; apply H; constructor |].
  cbn [mapM]. destruct (m_content m) as [|b bs] eqn:Hm.
  - apply bind_throw. unfold to_turn. rewrite Hm. reflexivity.
  - rewrite (bind_ok _ _ _ _ _ (to_turn_run m w ltac:(rewrite Hm; discriminate))).
    apply bind_throw. apply IH. intros Hl. apply H.
    constructor; [rewrite Hm; discriminate | exact Hl].
Qed.

Lemma Forall_content_dec (l : list Message) :
  Forall (fun m => m_content m <> []) l \/ ~ Forall (fun m => m_content m <> []) l.
Proof.
  induction l as [|m l [IH|IH]].
  - left. constructor.
  - destruct (m_content m) eqn:Hm.
    + right. intros H. inversion H; subst. congruence.
    + left. constructor; [rewrite Hm; discriminate | exact IH].
  - right. intros H. inversion H; subst. tauto.
Qed.

(** The turn up to the call of the model, on a conversation that exists. *)
Lemma chatWithLexi_steps (clock : nat -> Z) (llm : list Turn -> jsstring + Reply)
    (text : jsstring) (cid : ObjectId) (user : User) (w : World) (c : Conversation) :
  text <> [] ->
  find_conversation w cid = Some c ->
  chatWithLexi clock llm text cid user w
  = match mapM to_turn (history_of clock w text cid c)
            (user_turn_recorded clock w text cid (llm_log w)) with
    | (_, inl e) =>
        (user_turn_recorded clock w text cid (llm_log w),
         inl (chat_error (error_message e)))
    | (_, inr turns) =>
        let request := system_turn user :: slice_last 20 turns in
        let asked := user_turn_recorded clock w text cid (llm_log w ++ [request]) in
        match llm request with
        | inl msg => (asked, inl (chat_error msg))
        | inr reply =>
            match validate_message (r_role reply) (r_content reply) with
            | Some e => (asked, inl (chat_error (error_message e)))
            | None =>
                (both_turns_recorded clock w text cid reply (llm_log w ++ [request]),
                 inr (mkChatResponse reply cid))
            end
        end
    end.
Proof.
  intros Ht Hc.
  pose proof (newMessage_run clock (lit "user") (Some text) cid w
                (validate_user_message text Ht)) as Hn.
  cbv zeta in Hn. fold (user_message clock w text cid) in Hn.
  set (um := user_message clock w text cid) in *.
  unfold chatWithLexi, try_catch.
  rewrite (bind_ok _ _ _ _ _ Hn).
  set (w1 := mkWorld (messages_coll w ++ [um]) (conversations_coll w) (users_coll w)
               (N.succ (next_id w)) (S (ticks w)) (llm_log w)).
  assert (Hc1 : find_conversation w1 cid = Some c) by exact Hc.
  pose proof (updateConversation_run clock cid (m_id um) w1) as Hu.
  rewrite Hc1 in Hu.
  cbn [w1 messages_coll conversations_coll users_coll next_id ticks llm_log m_id um
         user_message] in Hu.
  fold um in Hu.
  rewrite (bind_ok _ _ _ _ _ Hu).
  cbn [p_messages populate add_reference c_messages].
  fold (history_of clock w text cid c).
  change (mkWorld (messages_coll w ++ [um])
            (updateOne (has_id cid) (add_reference (next_id w) (clock (S (ticks w))))
               (conversations_coll w))
            (users_coll w) (N.succ (next_id w)) (S (S (ticks w))) (llm_log w))
    with (user_turn_recorded clock w text cid (llm_log w)).
  destruct (Forall_content_dec (history_of clock w text cid c)) as [Hh|Hh].
  - rewrite (mapM_to_turn_run _ _ Hh).
    rewrite (bind_ok _ _ _ _ _ (mapM_to_turn_run _ _ Hh)).
    fold (system_turn user).
    unfold bind at 1. unfold create_completion at 1.
    cbn [user_turn_recorded llm_log set_llm_log messages_coll conversations_coll
           users_coll next_id ticks].
    cbv zeta.
    destruct (llm _) as [msg|reply]; [reflexivity |].
    cbn [message r_role r_content].
    destruct (validate_message (r_role reply) (r_content reply)) as [e|] eqn:Hv.
    + rewrite (bind_throw _ _ _ _ _ (newMessage_fail clock _ _ cid _ e Hv)).
      reflexivity.
    + pose proof (newMessage_run clock _ _ cid
                    (mkWorld (messages_coll w ++ [um])
                       (updateOne (has_id cid)
                          (add_reference (next_id w) (clock (S (ticks w))))
                          (conversations_coll w))
                       (users_coll w) (N.succ (next_id w)) (S (S (ticks w)))
                       (llm_log w ++
                        [system_turn user
                         :: slice_last 20 (map turn_of (history_of clock w text cid c))]))
                    Hv) as Hn2.
      cbv zeta in Hn2.
      rewrite (bind_ok _ _ _ _ _ Hn2).
      cbn [messages_coll conversations_coll users_coll next_id ticks llm_log m_id].
      match goal with
      | |- context [bind (updateConversation clock cid ?i) _ ?w4] =>
          pose proof (updateConversation_run clock cid i w4) as Hu4;
          assert (Hc4 : find_conversation w4 cid
                        = Some (add_reference (next_id w) (clock (S (ticks w))) c))
      end.
      { unfold find_conversation in *. cbn [conversations_coll].
        rewrite findOne_updateOne by (intros x; apply has_id_add_reference).
        rewrite Hc. reflexivity. }
      rewrite Hc4 in Hu4.
      rewrite (bind_ok _ _ _ _ _ Hu4). reflexivity.
  - rewrite (mapM_to_turn_broken _ _ Hh).
    rewrite (bind_throw _ _ _ _ _ (mapM_to_turn_broken _ _ Hh)). reflexivity.
Qed.

Lemma chatWithLexi_empty_text (clock : nat -> Z) (llm : list Turn -> jsstring + Reply)
    (cid : ObjectId) (user : User) (w : World) :
  chatWithLexi clock llm [] cid user w
  = (w, inl (chat_error
               (lit "Message validation failed: content.0.text: 'Text' is required!"))).
Proof. reflexivity. Qed.

Lemma chat_outcome (clock : nat -> Z) (llm : list Turn -> jsstring + Reply)
    (text : jsstring) (cid : ObjectId) (user : User) (w : World) :
  ChatOutcome clock llm text cid user w (chatWithLexi clock llm text cid user w).
Proof.
  destruct text as [|ch text'] eqn:Htext.
  { rewrite chatWithLexi_empty_text. apply Refused_text. reflexivity. }
  rewrite <- Htext. assert (Ht : text <> []) by (rewrite Htext; discriminate).
  clear Htext.
  destruct (find_conversation w cid) as [c|] eqn:Hc.
  - rewrite (chatWithLexi_steps clock llm text cid user w c Ht Hc).
    destruct (Forall_content_dec (history_of clock w text cid c)) as [Hh|Hh].
    + rewrite (mapM_to_turn_run _ _ Hh). cbv zeta.
      fold (request_of clock w text cid user c).
      destruct (llm (request_of clock w text cid user c)) as [msg|reply] eqn:Hl.
      * apply (No_reply _ _ _ _ _ _ c msg Ht Hc Hh). left. exact Hl.
      * destruct (validate_message (r_role reply) (r_content reply)) as [e|] eqn:Hv.
        -- apply (No_reply _ _ _ _ _ _ c (error_message e) Ht Hc Hh). right.
           exists reply, e. repeat split; assumption.
        -- apply (Answered _ _ _ _ _ _ c reply Ht Hc Hh Hl Hv).
    + rewrite (mapM_to_turn_broken _ _ Hh).
      apply (Broken_history _ _ _ _ _ _ c Ht Hc Hh).
  - rewrite (chatWithLexi_absent clock llm text cid user w Ht Hc).
    apply No_conversation; assumption.
Qed.

(** ** The message store *)

(** X11. [newMessage] stores a message exactly when the role is user or
    assistant and the text is a non-empty string: it then appends one
    message, with a new id, that role and a single text block, returns
    it, and links it into no conversation; otherwise it throws a
    validation error and leaves the world as it was. *)
Theorem message_store_accepts_exactly_the_schema :
  forall (clock : nat -> Z) (role : jsstring) (input : option jsstring)
         (conversationId : ObjectId) (w : World),
    (forall text,
        In role role_enum -> input = Some text -> text <> [] ->
        let m := mkMessage (next_id w) role [mkBlock (lit "text") text] conversationId
                   (clock (ticks w)) (clock (ticks w)) in
        exists w',
          newMessage clock role input conversationId w = (w', inr m)
          /\ messages_coll w' = messages_coll w ++ [m]
          /\ conversations_coll w' = conversations_coll w
          /\ schema_ok m)
    /\ (~ In role role_enum \/ input = None \/ input = Some [] ->
        exists details,
          newMessage clock role input conversationId w
          = (w, inl (ValidationError details))).
Proof.
  intros clock role input cid w. split.
  - intros text Hrole Hin Ht m.
    assert (Hv : validate_message role input = None).
    { apply validate_message_spec. split; [exact Hrole |].
      exists text. split; assumption. }
    pose proof (newMessage_run clock role input cid w Hv) as Hrun.
    cbv zeta in Hrun. subst input. fold m in Hrun.
    eexists. split; [exact Hrun |]. cbn [messages_coll conversations_coll].
    split; [reflexivity |]. split; [reflexivity |].
    split; [exact Hrole |]. exists text. split; [reflexivity | exact Ht].
  - intros Hbad.
    destruct (validate_message role input) as [e|] eqn:Hv.
    + destruct (validate_message_fails role input e Hv) as (d & ->).
      exists d. apply newMessage_fail. exact Hv.
    + exfalso. apply validate_message_spec in Hv.
      destruct Hv as (Hrole & t & Ht & Hne).
      destruct Hbad as [H|[H|H]]; [tauto | congruence | congruence].
Qed.

Lemma message_store_accepts_exactly_the_schema_witness :
  (exists w',
      newMessage Sample.clock (lit "assistant") (Some (lit "681")) 100%N Sample.world
      = (w', inr (mkMessage 101%N (lit "assistant") [mkBlock (lit "text") (lit "681")]
                    100%N (Sample.clock 0) (Sample.clock 0))))
  /\ exists details,
       newMessage Sample.clock (lit "system") (Some (lit "681")) 100%N Sample.world
       = (Sample.world, inl (ValidationError details)).
Proof.
  destruct (message_store_accepts_exactly_the_schema Sample.clock (lit "assistant")
              (Some (lit "681")) 100%N Sample.world) as [Hok _].
  destruct (message_store_accepts_exactly_the_schema Sample.clock (lit "system")
              (Some (lit "681")) 100%N Sample.world) as [_ Hbad].
  split.
  - destruct (Hok (lit "681")) as (w' & H & _);
      [right; left; reflexivity | reflexivity | discriminate |].
    exists w'. exact H.
  - apply Hbad. left. intros [H|[H|[]]]; discriminate H.
Defined.

(** ** What a turn does and does not do *)

Lemma addToSet_appends (i : ObjectId) (l : list ObjectId) :
  exists added, addToSet i l = l ++ added.
Proof.
  unfold addToSet. destruct (mem i l); [exists []; rewrite app_nil_r | eexists];
    reflexivity.
Qed.

Lemma NoDup_addToSet (i : ObjectId) (l : list ObjectId) :
  NoDup l -> NoDup (addToSet i l).
Proof.
  intros H. unfold addToSet. destruct (mem i l) eqn:Hm; [exact H |].
  apply NoDup_app; [exact H | repeat constructor; simpl; tauto |].
  intros j Hj [<-|[]]. apply mem_In in Hj. congruence.
Qed.

Lemma In_updateOne_other {A} (p : A -> bool) (f : A -> A) (l : list A) (x : A) :
  (forall y, p (f y) = p y) -> p x = false ->
  (In x (updateOne p f l) <-> In x l).
Proof.
  intros Hf Hx. induction l as [|y l IH]; simpl; [tauto |].
  destruct (p y) eqn:Hy; simpl.
  - split; intros [H|H]; try (right; exact H).
    + subst x. rewrite Hf in Hx. congruence.
    + subst x. congruence.
  - rewrite IH. tauto.
Qed.

Lemma map_updateOne {A B} (g : A -> B) (p : A -> bool) (f : A -> A) (l : list A) :
  (forall y, g (f y) = g y) -> map g (updateOne p f l) = map g l.
Proof.
  intros Hg. induction l as [|y l IH]; simpl; [reflexivity |].
  destruct (p y); simpl; [rewrite Hg | rewrite IH]; reflexivity.
Qed.

Lemma user_message_schema_ok (clock : nat -> Z) (w : World) (text : jsstring)
    (cid : ObjectId) :
  text <> [] -> schema_ok (user_message clock w text cid).
Proof.
  intros Ht. split; [left; reflexivity |].
  exists text. split; [reflexivity | exact Ht].
Qed.

Lemma assistant_message_schema_ok (clock : nat -> Z) (w : World) (reply : Reply)
    (cid : ObjectId) :
  validate_message (r_role reply) (r_content reply) = None ->
  schema_ok (assistant_message clock w reply cid).
Proof.
  intros Hv. apply validate_message_spec in Hv. destruct Hv as (Hr & t & Ht & Hne).
  split; [exact Hr |]. exists t. cbn [assistant_message m_content]. rewrite Ht.
  split; [reflexivity | exact Hne].
Qed.

(** X12. When a turn returns, the text was not empty and the
    conversation exists; the model was called once, with the request of
    the turn, and answered the message that is returned, whose role is
    user or assistant and whose content is a non-empty string; and the
    message collection holds exactly two more messages, the user's and
    then the reply. *)
Theorem turn_returns_what_it_stored :
  forall (clock : nat -> Z) (llm : list Turn -> jsstring + Reply) (text : jsstring)
         (conversationId : ObjectId) (user : User) (w : World) (r : ChatResponse),
    snd (chatWithLexi clock llm text conversationId user w) = inr r ->
    let w' := fst (chatWithLexi clock llm text conversationId user w) in
    exists (c : Conversation) (answer : jsstring),
      text <> []
      /\ find_conversation w conversationId = Some c
      /\ r = mkChatResponse (message r) conversationId
      /\ In (r_role (message r)) role_enum
      /\ r_content (message r) = Some answer /\ answer <> []
      /\ llm (request_of clock w text conversationId user c) = inr (message r)
      /\ llm_log w' = llm_log w ++ [request_of clock w text conversationId user c]
      /\ messages_coll w'
         = messages_coll w
           ++ [user_message clock w text conversationId;
               assistant_message clock w (message r) conversationId].
Proof.
  intros clock llm text cid user w r Hr w'. subst w'.
  destruct (chat_outcome clock llm text cid user w)
    as [d Ht | Ht Hc | c Ht Hc Hh | c d Ht Hc Hh Hl | c reply Ht Hc Hh Hl Hv];
    cbn [snd fst] in *; try discriminate Hr.
  injection Hr as <-. cbn [message].
  apply validate_message_spec in Hv. destruct Hv as (Hrole & answer & Ha & Hne).
  exists c, answer.
  cbn [both_turns_recorded messages_coll llm_log].
  rewrite <- app_assoc.
  repeat split; try assumption; reflexivity.
Qed.

Lemma turn_returns_what_it_stored_witness :
  let run := chatWithLexi Sample.clock Sample.answering (lit "Q") 100%N Sample.kid
               Sample.world in
  exists (c : Conversation) (answer : jsstring),
    find_conversation Sample.world 100%N = Some c
    /\ answer <> []
    /\ messages_coll (fst run)
       = [user_message Sample.clock Sample.world (lit "Q") 100%N;
          assistant_message Sample.clock Sample.world
            (mkReply (lit "assistant") (Some answer)) 100%N].
Proof.
  cbv zeta.
  destruct (turn_returns_what_it_stored Sample.clock Sample.answering (lit "Q") 100%N
              Sample.kid Sample.world
              (mkChatResponse (mkReply (lit "assistant") (Some (lit "681"))) 100%N)
              eq_refl)
    as (c & answer & _ & Hc & _ & _ & Ha & Hne & _ & _ & Hm).
  exists c, answer. split; [exact Hc |]. split; [exact Hne |].
  rewrite Hm. cbn [message] in *. injection Ha as <-. reflexivity.
Defined.

(** X13. When a turn throws, what it throws is the error of the chat
    service, of status 500; an empty text leaves the world as it was;
    any other text leaves exactly the user's message more in the
    collection, and never a reply. *)
Theorem failed_turn_keeps_only_the_question :
  forall (clock : nat -> Z) (llm : list Turn -> jsstring + Reply) (text : jsstring)
         (conversationId : ObjectId) (user : User) (w : World) (e : JsError),
    snd (chatWithLexi clock llm text conversationId user w) = inl e ->
    let w' := fst (chatWithLexi clock llm text conversationId user w) in
    (exists details, e = chat_error details)
    /\ error_status e = 500
    /\ (text = [] -> w' = w)
    /\ (text <> [] ->
        messages_coll w'
        = messages_coll w ++ [user_message clock w text conversationId]).
Proof.
  intros clock llm text cid user w e He w'. subst w'.
  destruct (chat_outcome clock llm text cid user w)
    as [d Ht | Ht Hc | c Ht Hc Hh | c d Ht Hc Hh Hl | c reply Ht Hc Hh Hl Hv];
    cbn [snd fst] in *; try discriminate He; injection He as <-;
    (split; [eexists; reflexivity |]); (split; [reflexivity |]);
    (split; [intros H; try reflexivity; contradiction
            | intros H; try contradiction; reflexivity]).
Qed.

Lemma failed_turn_keeps_only_the_question_witness :
  let run := chatWithLexi Sample.clock Sample.failing (lit "Q") 100%N Sample.kid
               Sample.world in
  messages_coll (fst run) = [user_message Sample.clock Sample.world (lit "Q") 100%N].
Proof.
  cbv zeta.
  destruct (failed_turn_keeps_only_the_question Sample.clock Sample.failing (lit "Q")
              100%N Sample.kid Sample.world (chat_error (lit "Rate limit reached"))
              eq_refl) as (_ & _ & _ & H).
  apply H. discriminate.
Defined.

Lemma turn_conversations (clock : nat -> Z) (llm : list Turn -> jsstring + Reply)
    (text : jsstring) (cid : ObjectId) (user : User) (w : World) :
  let convs' := conversations_coll (fst (chatWithLexi clock llm text cid user w)) in
  convs' = conversations_coll w
  \/ convs' = updateOne (has_id cid) (add_reference (next_id w) (clock (S (ticks w))))
                (conversations_coll w)
  \/ convs' = updateOne (has_id cid)
                (add_reference (N.succ (next_id w)) (clock (S (S (S (ticks w))))))
                (updateOne (has_id cid)
                   (add_reference (next_id w) (clock (S (ticks w))))
                   (conversations_coll w)).
Proof.
  cbv zeta.
  destruct (chat_outcome clock llm text cid user w)
    as [d Ht | Ht Hc | c Ht Hc Hh | c d Ht Hc Hh Hl | c reply Ht Hc Hh Hl Hv];
    cbn [fst conversations_coll user_turn_recorded both_turns_recorded]; tauto.
Qed.

Lemma add_reference_appends (mid : ObjectId) (t : Z) (c : Conversation) :
  exists added, c_messages (add_reference mid t c) = c_messages c ++ added.
Proof. apply addToSet_appends. Qed.

(** X14. A turn, however it ends, leaves the users as they were, only
    adds messages (at most two, after those already stored), creates and
    deletes no conversation, changes no conversation's id, owner or
    creation time, leaves every conversation with another id exactly as
    it was, and only appends references to the conversation of the
    turn. *)
Theorem turn_touches_only_its_conversation :
  forall (clock : nat -> Z) (llm : list Turn -> jsstring + Reply) (text : jsstring)
         (conversationId : ObjectId) (user : User) (w : World),
    let w' := fst (chatWithLexi clock llm text conversationId user w) in
    users_coll w' = users_coll w
    /\ (exists added,
          messages_coll w' = messages_coll w ++ added /\ (List.length added <= 2)%nat)
    /\ map c_id (conversations_coll w') = map c_id (conversations_coll w)
    /\ map c_owner (conversations_coll w') = map c_owner (conversations_coll w)
    /\ map c_created_at (conversations_coll w') = map c_created_at (conversations_coll w)
    /\ (forall x, c_id x <> conversationId ->
                  (In x (conversations_coll w') <-> In x (conversations_coll w)))
    /\ (forall c, find_conversation w conversationId = Some c ->
                  exists c' added,
                    find_conversation w' conversationId = Some c'
                    /\ c_messages c' = c_messages c ++ added).
Proof.
  intros clock llm text cid user w w'.
  split.
  { subst w'.
    destruct (chat_outcome clock llm text cid user w)
      as [d Ht | Ht Hc | c Ht Hc Hh | c d Ht Hc Hh Hl | c reply Ht Hc Hh Hl Hv];
      reflexivity. }
  split.
  { subst w'.
    destruct (chat_outcome clock llm text cid user w)
      as [d Ht | Ht Hc | c Ht Hc Hh | c d Ht Hc Hh Hl | c reply Ht Hc Hh Hl Hv];
      cbn [fst messages_coll user_turn_recorded both_turns_recorded].
    - exists []. rewrite app_nil_r. split; [reflexivity | simpl; lia].
    - eexists. split; [reflexivity | simpl; lia].
    - eexists. split; [reflexivity | simpl; lia].
    - eexists. split; [reflexivity | simpl; lia].
    - eexists. split; [rewrite <- app_assoc; reflexivity | simpl; lia]. }
  pose proof (turn_conversations clock llm text cid user w) as Hconv.
  cbv zeta in Hconv. fold w' in Hconv.
  assert (Hid : forall i t y, has_id cid (add_reference i t y) = has_id cid y)
    by reflexivity.
  split; [destruct Hconv as [-> | [-> | ->]];
          rewrite ?map_updateOne by reflexivity; reflexivity |].
  split; [destruct Hconv as [-> | [-> | ->]];
          rewrite ?map_updateOne by reflexivity; reflexivity |].
  split; [destruct Hconv as [-> | [-> | ->]];
          rewrite ?map_updateOne by reflexivity; reflexivity |].
  split.
  { intros x Hx.
    assert (Hp : has_id cid x = false)
      by (unfold has_id; apply N.eqb_neq; exact Hx).
    destruct Hconv as [-> | [-> | ->]]; [reflexivity | |];
      rewrite ?In_updateOne_other by (try exact Hp; intros y; apply Hid); reflexivity. }
  intros c Hc. unfold find_conversation in *.
  destruct Hconv as [-> | [-> | ->]].
  - exists c, []. rewrite app_nil_r. split; [exact Hc | reflexivity].
  - rewrite findOne_updateOne by (intros y; apply Hid). rewrite Hc. cbn [option_map].
    destruct (add_reference_appends (next_id w) (clock (S (ticks w))) c) as (a & Ha).
    eexists; exists a. split; [reflexivity | exact Ha].
  - rewrite !findOne_updateOne by (intros y; apply Hid). rewrite Hc. cbn [option_map].
    destruct (add_reference_appends (next_id w) (clock (S (ticks w))) c) as (a & Ha).
    destruct (add_reference_appends (N.succ (next_id w)) (clock (S (S (S (ticks w)))))
                (add_reference (next_id w) (clock (S (ticks w))) c)) as (b & Hb).
    eexists; exists (a ++ b). split; [reflexivity |].
    rewrite Hb, Ha, app_assoc. reflexivity.
Qed.

Lemma length_slice_last {A} (n : nat) (l : list A) :
  (List.length (slice_last n l) <= n)%nat.
Proof. unfold slice_last. rewrite length_skipn. lia. Qed.

Lemma Forall_slice_last {A} (P : A -> Prop) (n : nat) (l : list A) :
  Forall P l -> Forall P (slice_last n l).
Proof.
  intros H. unfold slice_last. rewrite <- (firstn_skipn (List.length l - n) l) in H.
  apply Forall_app in H. tauto.
Qed.

Lemma user_message_in_history (clock : nat -> Z) (w : World) (text : jsstring)
    (cid : ObjectId) (c : Conversation) :
  In (user_message clock w text cid) (history_of clock w text cid c).
Proof.
  unfold history_of. apply In_populate_messages. split.
  - apply in_or_app. right. left. reflexivity.
  - apply In_addToSet. left. reflexivity.
Qed.

Lemma request_of_shape (clock : nat -> Z) (w : World) (text : jsstring)
    (cid : ObjectId) (user : User) (c : Conversation) :
  Forall (fun m => m_content m <> []) (history_of clock w text cid c) ->
  exists window,
    request_of clock w text cid user c = system_turn user :: window
    /\ (1 <= List.length window <= 20)%nat
    /\ Forall (fun t => List.length (t_content t) = 1%nat) window.
Proof.
  intros Hh. eexists. split; [reflexivity |].
  split.
  - split; [| apply length_slice_last].
    pose proof (user_message_in_history clock w text cid c) as Hin.
    assert (Hlen : (1 <= List.length (history_of clock w text cid c))%nat)
      by (destruct (history_of clock w text cid c); [contradiction | simpl; lia]).
    unfold slice_last. rewrite length_skipn, !length_map. lia.
  - apply Forall_slice_last. apply Forall_map.
    eapply Forall_impl; [| exact Hh]. intros m Hm. cbn [turn_of t_content].
    destruct (m_content m) eqn:E; [congruence | reflexivity].
Qed.

(** X15. A turn calls the model at most once, and never with more than
    21 entries: the request is the system turn of the user followed by
    at least one and at most 20 turns, each with a single block. *)
Theorem turn_calls_the_model_at_most_once :
  forall (clock : nat -> Z) (llm : list Turn -> jsstring + Reply) (text : jsstring)
         (conversationId : ObjectId) (user : User) (w : World),
    let w' := fst (chatWithLexi clock llm text conversationId user w) in
    llm_log w' = llm_log w
    \/ exists window,
         llm_log w' = llm_log w ++ [system_turn user :: window]
         /\ (1 <= List.length window <= 20)%nat
         /\ Forall (fun t => List.length (t_content t) = 1%nat) window.
Proof.
  intros clock llm text cid user w w'. subst w'.
  destruct (chat_outcome clock llm text cid user w)
    as [d Ht | Ht Hc | c Ht Hc Hh | c d Ht Hc Hh Hl | c reply Ht Hc Hh Hl Hv];
    cbn [fst llm_log user_turn_recorded both_turns_recorded];
    try (left; reflexivity); right;
    destruct (request_of_shape clock w text cid user c Hh) as (window & -> & Hlen & Hb);
    exists window; repeat split; try assumption; lia.
Qed.

(** ** Invariants of the store *)

(** X16. A turn keeps the message collection within the schema: when
    every stored message has a role of the enum and a single non-empty
    text block, so has every message after the turn, whatever the text
    and whatever the model answers. *)
Theorem turn_keeps_messages_within_the_schema :
  forall (clock : nat -> Z) (llm : list Turn -> jsstring + Reply) (text : jsstring)
         (conversationId : ObjectId) (user : User) (w : World),
    Forall schema_ok (messages_coll w) ->
    Forall schema_ok
      (messages_coll (fst (chatWithLexi clock llm text conversationId user w))).
Proof.
  intros clock llm text cid user w Hw.
  assert (Hum : text <> [] ->
                Forall schema_ok (messages_coll w ++ [user_message clock w text cid])).
  { intros Ht. apply Forall_app. split; [exact Hw |].
    constructor; [apply user_message_schema_ok; exact Ht | constructor]. }
  destruct (chat_outcome clock llm text cid user w)
    as [d Ht | Ht Hc | c Ht Hc Hh | c d Ht Hc Hh Hl | c reply Ht Hc Hh Hl Hv];
    cbn [fst messages_coll user_turn_recorded both_turns_recorded].
  - exact Hw.
  - apply Hum, Ht.
  - apply Hum, Ht.
  - apply Hum, Ht.
  - apply Forall_app. split; [apply Hum, Ht |].
    constructor; [apply assistant_message_schema_ok; exact Hv | constructor].
Qed.

Lemma turn_keeps_messages_within_the_schema_witness :
  Forall schema_ok
    (messages_coll
       (fst (chatWithLexi Sample.clock Sample.answering (lit "Q") 100%N Sample.kid
               Sample.world))).
Proof.
  apply (turn_keeps_messages_within_the_schema Sample.clock Sample.answering (lit "Q")
           100%N Sample.kid Sample.world).
  constructor.
Defined.

(** X17. The store never references a message twice: when no
    conversation has a repeated reference, none has after
    [updateConversation], whatever the ids, and none has after a turn. *)
Theorem references_stay_distinct :
  forall (clock : nat -> Z) (w : World),
    Forall (fun c => NoDup (c_messages c)) (conversations_coll w) ->
    (forall conversationId messageId : ObjectId,
        Forall (fun c => NoDup (c_messages c))
          (conversations_coll
             (fst (updateConversation clock conversationId messageId w))))
    /\ (forall (llm : list Turn -> jsstring + Reply) (text : jsstring)
               (conversationId : ObjectId) (user : User),
          Forall (fun c => NoDup (c_messages c))
            (conversations_coll
               (fst (chatWithLexi clock llm text conversationId user w)))).
Proof.
  intros clock w Hw.
  assert (Hstep : forall cid mid t l,
             Forall (fun c => NoDup (c_messages c)) l ->
             Forall (fun c => NoDup (c_messages c))
               (updateOne (has_id cid) (add_reference mid t) l)).
  { intros cid mid t l Hl. apply Forall_updateOne; [exact Hl |].
    intros c Hc. apply NoDup_addToSet. exact Hc. }
  split.
  - intros cid mid. rewrite updateConversation_run.
    destruct (find_conversation w cid); cbn [fst conversations_coll set_ticks];
      [apply Hstep |]; exact Hw.
  - intros llm text cid user.
    destruct (turn_conversations clock llm text cid user w) as [H | [H | H]];
      rewrite H; [exact Hw | apply Hstep; exact Hw | apply Hstep, Hstep; exact Hw].
Qed.

Lemma references_stay_distinct_witness :
  Forall (fun c => NoDup (c_messages c))
    (conversations_coll (fst (updateConversation Sample.clock 100%N 101%N Sample.world2))).
Proof.
  apply (proj1 (references_stay_distinct Sample.clock Sample.world2
                  ltac:(repeat constructor))).
Defined.

(** X18. A turn keeps the store well formed, whatever the text: ids
    stay below the next id of the generator, message ids stay distinct,
    and every message keeps a first block. *)
Theorem turn_keeps_the_store_well_formed :
  forall (clock : nat -> Z) (llm : list Turn -> jsstring + Reply) (text : jsstring)
         (conversationId : ObjectId) (user : User) (w : World),
    wf_world w ->
    wf_world (fst (chatWithLexi clock llm text conversationId user w)).
Proof.
  intros clock llm text cid user w Hwf.
  destruct text as [|ch text'] eqn:Ht.
  - rewrite chatWithLexi_empty_text. exact Hwf.
  - apply chatWithLexi_wf; [exact Hwf | discriminate].
Qed.

Lemma turn_keeps_the_store_well_formed_witness :
  wf_world
    (fst (chatWithLexi Sample.clock Sample.answering (lit "Q") 100%N Sample.kid
            Sample.world)).
Proof.
  apply (turn_keeps_the_store_well_formed Sample.clock Sample.answering (lit "Q") 100%N
           Sample.kid Sample.world).
  apply sample_world_wf.
Defined.

(** ** The system prompt *)

Lemma first_word_prefix (first rest : jsstring) :
  Forall (fun c => c <> 32%N) first ->
  first_word (first ++ 32%N :: rest) = first /\ first_word first = first.
Proof.
  induction 1 as [|c l Hc Hl [IH1 IH2]]; [split; reflexivity |].
  simpl. destruct (N.eqb_spec c 32); [contradiction |].
  rewrite IH1, IH2. split; reflexivity.
Qed.

Lemma first_word_no_space (name : jsstring) :
  Forall (fun c => c <> 32%N) (first_word name).
Proof.
  induction name as [|c l IH]; simpl; [constructor |].
  destruct (N.eqb_spec c 32); constructor; assumption.
Qed.

(** X19. The system prompt takes from the full name what precedes its
    first space and nothing else: a first name without a space followed
    by a space and anything gives the prompt of the first name alone;
    and the part of any name that the prompt uses has no space. *)
Theorem system_prompt_uses_the_first_name_only :
  forall first rest : jsstring,
    Forall (fun c => c <> 32%N) first ->
    setSystemPrompt (first ++ 32%N :: rest)
    = basePrompt ++ namePrefix ++ first ++ nameSuffix
    /\ setSystemPrompt (first ++ 32%N :: rest) = setSystemPrompt first
    /\ forall name, Forall (fun c => c <> 32%N) (first_word name).
Proof.
  intros first rest H. destruct (first_word_prefix first rest H) as [H1 H2].
  unfold setSystemPrompt. rewrite H1, H2.
  split; [reflexivity |]. split; [reflexivity | apply first_word_no_space].
Qed.

Lemma system_prompt_uses_the_first_name_only_witness :
  setSystemPrompt (lit "Ivan Petrov") = setSystemPrompt (lit "Ivan").
Proof.
  apply (system_prompt_uses_the_first_name_only (lit "Ivan") (lit "Petrov")).
  repeat constructor; discriminate.
Defined.

(** ** Starting a conversation *)

Lemma findOne_snoc {A} (p : A -> bool) (l : list A) (x : A) :
  findOne p (l ++ [x])
  = match findOne p l with
    | Some y => Some y
    | None => if p x then Some x else None
    end.
Proof.
  unfold findOne. induction l as [|y l IH]; simpl; [reflexivity |].
  destruct (p y); [reflexivity | exact IH].
Qed.

Lemma findOne_none_fresh (w : World) :
  Forall (fun c => (c_id c < next_id w)%N) (conversations_coll w) ->
  findOne (has_id (next_id w)) (conversations_coll w) = None.
Proof.
  intros H. unfold findOne.
  destruct (find (has_id (next_id w)) (conversations_coll w)) eqn:Hf; [| reflexivity].
  apply find_some in Hf. destruct Hf as [Hin Hid].
  rewrite Forall_forall in H. specialize (H _ Hin).
  unfold has_id in Hid. apply N.eqb_eq in Hid. lia.
Qed.

Lemma get_start_run (clock : nat -> Z) (userId : ObjectId) (w : World) :
  get_start clock userId w
  = (mkWorld (messages_coll w)
       (conversations_coll w
        ++ [mkConversation (next_id w) [] userId (clock (ticks w)) (clock (ticks w))])
       (users_coll w) (N.succ (next_id w)) (S (ticks w)) (llm_log w),
     inr (next_id w)).
Proof. reflexivity. Qed.

(** X20. In a store whose conversation ids are below the next id of
    the generator, [GET /start] answers a new id under which the store
    holds an empty conversation of the user; every other id finds what
    it found before; no message is touched. *)
Theorem started_conversation_is_found :
  forall (clock : nat -> Z) (userId : ObjectId) (w : World),
    Forall (fun c => (c_id c < next_id w)%N) (conversations_coll w) ->
    exists (w' : World) (conversationId : ObjectId),
      get_start clock userId w = (w', inr conversationId)
      /\ find_conversation w conversationId = None
      /\ find_conversation w' conversationId
         = Some (mkConversation conversationId [] userId (clock (ticks w))
                   (clock (ticks w)))
      /\ message_count w' conversationId = 0%nat
      /\ (forall other, other <> conversationId ->
                        find_conversation w' other = find_conversation w other)
      /\ messages_coll w' = messages_coll w.
Proof.
  intros clock userId w Hfresh. rewrite get_start_run.
  pose proof (findOne_none_fresh w Hfresh) as Hnone.
  eexists; eexists. split; [reflexivity |].
  unfold message_count, find_conversation. cbn [conversations_coll messages_coll].
  rewrite !findOne_snoc, Hnone.
  unfold has_id at 1 2. cbn [c_id]. rewrite N.eqb_refl.
  split; [reflexivity |]. split; [reflexivity |]. split; [reflexivity |].
  split; [| reflexivity].
  intros other Hne. rewrite findOne_snoc.
  destruct (findOne (has_id other) (conversations_coll w)); [reflexivity |].
  unfold has_id. cbn [c_id]. destruct (N.eqb_spec (next_id w) other); congruence.
Qed.

Lemma started_conversation_is_found_witness :
  exists (w' : World) (conversationId : ObjectId),
    get_start Sample.clock 7%N Sample.world = (w', inr conversationId)
    /\ message_count w' conversationId = 0%nat.
Proof.
  destruct (started_conversation_is_found Sample.clock 7%N Sample.world)
    as (w' & cid & H & _ & _ & Hm & _).
  - repeat constructor.
  - exists w', cid. split; assumption.
Defined.

Lemma populate_messages_fresh (coll : list Message) (m : Message) :
  Forall (fun x => (m_id x < m_id m)%N) coll ->
  populate_messages [m_id m] (coll ++ [m]) = [m].
Proof.
  intros H. unfold populate_messages. rewrite filter_app.
  replace (filter (fun x => mem (m_id x) [m_id m]) coll) with (@nil Message).
  - simpl. rewrite N.eqb_refl. reflexivity.
  - symmetry. induction H as [|x l Hx Hl IH]; simpl; [reflexivity |].
    destruct (N.eqb_spec (m_id x) (m_id m)); [lia | exact IH].
Qed.

(** X21. The first turn of a conversation that [GET /start] has just
    created sends the model the system turn and the user's text, and
    nothing else, whatever the store holds for other conversations. *)
Theorem first_turn_sends_only_the_question :
  forall (clock : nat -> Z) (llm : list Turn -> jsstring + Reply) (text : jsstring)
         (user : User) (w : World),
    wf_world w ->
    Forall (fun c => (c_id c < next_id w)%N) (conversations_coll w) ->
    text <> [] ->
    exists (w1 : World) (conversationId : ObjectId),
      get_start clock (u_id user) w = (w1, inr conversationId)
      /\ llm_log (fst (chatWithLexi clock llm text conversationId user w1))
         = llm_log w
           ++ [[system_turn user; mkTurn (lit "user") [mkBlock (lit "text") text]]].
Proof.
  intros clock llm text user w Hwf Hfresh Ht.
  rewrite get_start_run. eexists; eexists. split; [reflexivity |].
  set (w1 := mkWorld _ _ _ _ _ _).
  assert (Hc : find_conversation w1 (next_id w)
               = Some (mkConversation (next_id w) [] (u_id user) (clock (ticks w))
                         (clock (ticks w)))).
  { unfold find_conversation, w1. cbn [conversations_coll].
    rewrite findOne_snoc, (findOne_none_fresh w Hfresh).
    unfold has_id. cbn [c_id]. rewrite N.eqb_refl. reflexivity. }
  assert (Hhist : forall c, find_conversation w1 (next_id w) = Some c ->
                            history_of clock w1 text (next_id w) c
                            = [user_message clock w1 text (next_id w)]).
  { intros c Hc'. rewrite Hc in Hc'. injection Hc' as <-.
    unfold history_of. cbn [c_messages addToSet mem existsb app].
    apply (populate_messages_fresh (messages_coll w1)
             (user_message clock w1 text (next_id w))).
    cbn [w1 messages_coll user_message m_id next_id].
    eapply Forall_impl; [| exact (wf_message_ids w Hwf)].
    intros x Hx. cbv beta in Hx. lia. }
  assert (Hreq : forall c, find_conversation w1 (next_id w) = Some c ->
                           request_of clock w1 text (next_id w) user c
                           = [system_turn user;
                              mkTurn (lit "user") [mkBlock (lit "text") text]]).
  { intros c Hc'. unfold request_of. rewrite (Hhist c Hc'). reflexivity. }
  destruct (chat_outcome clock llm text (next_id w) user w1)
    as [d Ht' | Ht' Hc' | c Ht' Hc' Hh | c d Ht' Hc' Hh Hl | c reply Ht' Hc' Hh Hl Hv];
    cbn [fst llm_log user_turn_recorded both_turns_recorded].
  - contradiction.
  - congruence.
  - exfalso. apply Hh. rewrite (Hhist c Hc'). repeat constructor. discriminate.
  - rewrite (Hreq c Hc'). reflexivity.
  - rewrite (Hreq c Hc'). reflexivity.
Qed.

Lemma first_turn_sends_only_the_question_witness :
  exists (w1 : World) (conversationId : ObjectId),
    get_start Sample.clock 7%N Sample.world20 = (w1, inr conversationId)
    /\ llm_log (fst (chatWithLexi Sample.clock Sample.answering (lit "Q") conversationId
                       Sample.kid w1))
       = [[system_turn Sample.kid; mkTurn (lit "user") [mkBlock (lit "text") (lit "Q")]]].
Proof.
  apply (first_turn_sends_only_the_question Sample.clock Sample.answering (lit "Q")
           Sample.kid Sample.world20).
  - constructor; cbn [Sample.world20 messages_coll conversations_coll next_id].
    + apply Forall_forall. intros m Hm. apply in_map_iff in Hm.
      destruct Hm as (n & <- & Hn). apply in_seq in Hn. cbn [Sample.msg m_id]. lia.
    + repeat constructor; cbv; reflexivity.
    + vm_compute. repeat constructor; simpl; intuition discriminate.
    + apply Forall_forall. intros m Hm. apply in_map_iff in Hm.
      destruct Hm as (n & <- & Hn). discriminate.
  - repeat constructor.
  - discriminate.
Defined.

(** ** The answers of the handlers *)

Lemma chat_answer_not_empty (clock : nat -> Z) (llm : list Turn -> jsstring + Reply)
    (text : jsstring) (cid : ObjectId) (user : User) (w : World) (r : ChatResponse) :
  snd (chatWithLexi clock llm text cid user w) = inr r ->
  exists answer, r_content (message r) = Some answer /\ answer <> [].
Proof.
  intros Hr.
  destruct (chat_outcome clock llm text cid user w)
    as [d Ht | Ht Hc | c Ht Hc Hh | c d Ht Hc Hh Hl | c reply Ht Hc Hh Hl Hv];
    cbn [snd] in Hr; try discriminate Hr.
  injection Hr as <-. cbn [message].
  apply validate_message_spec in Hv. destruct Hv as (_ & a & Ha & Hne).
  exists a. split; assumption.
Qed.

Lemma chat_answer_recorded (clock : nat -> Z) (llm : list Turn -> jsstring + Reply)
    (text : jsstring) (cid : ObjectId) (user : User) (w : World) (r : ChatResponse) :
  snd (chatWithLexi clock llm text cid user w) = inr r ->
  messages_coll (fst (chatWithLexi clock llm text cid user w))
  = messages_coll w
    ++ [user_message clock w text cid; assistant_message clock w (message r) cid].
Proof.
  intros Hr.
  destruct (chat_outcome clock llm text cid user w)
    as [d Ht | Ht Hc | c Ht Hc Hh | c d Ht Hc Hh Hl | c reply Ht Hc Hh Hl Hv];
    cbn [snd fst] in *; try discriminate Hr.
  injection Hr as <-. cbn [message both_turns_recorded messages_coll].
  rewrite <- app_assoc. reflexivity.
Qed.

Lemma invalid_answer_spec (content : option jsstring) :
  invalid_answer content = false <-> exists s, content = Some s /\ s <> [].
Proof.
  destruct content as [[|c s]|]; simpl; split; try discriminate.
  - intros (s' & H & Hne). congruence.
  - intros _. eexists. split; [reflexivity | discriminate].
  - reflexivity.
  - intros (s' & H & _). discriminate H.
Qed.

Ltac client_error :=
  do 3 eexists;
  split; [reflexivity |];
  split; [first [left; reflexivity | right; left; reflexivity] | intros _; reflexivity].

(** X22. The text handler throws nothing but HttpErrors, of status 400,
    404 or 500; a 400 or a 404 leaves the world as it was; and when the
    handler answers, the answer is a non-empty string. *)
Theorem text_handler_outcomes :
  forall (clock : nat -> Z) (llm : list Turn -> jsstring + Reply) (req : TextRequest)
         (w : World),
    match post_text clock llm req w with
    | (w', inl e) =>
        exists status message details,
          e = HttpError status message details
          /\ (status = 400 \/ status = 404 \/ status = 500)
          /\ (status <> 500 -> w' = w)
    | (w', inr answer) => exists s, answer = Some s /\ s <> []
    end.
Proof.
  intros clock llm req w. unfold post_text.
  destruct (text_conversationId req) as [cid|];
    [| client_error].
  destruct (negb (str_eqb (typeof (text_userInput req)) (lit "string"))
            || is_empty_string (text_userInput req)) eqn:Hg;
    [client_error |].
  apply string_guard_spec in Hg. destruct Hg as (s & Hs & Hne). rewrite Hs.
  rewrite (bind_ok _ _ _ _ _ (get_length_string s w)).
  destruct (gt (str_length s) (JNumber (num_of_Z 4096)));
    [client_error |].
  unfold bind at 1. unfold getChildInfoById.
  destruct (findOne _ (users_coll w)) as [user|];
    [| client_error].
  cbn [as_string]. unfold bind.
  destruct (chatWithLexi clock llm s cid user w) as [w' [e|r]] eqn:Hchat.
  - pose proof (chatWithLexi_error clock llm s cid user w e) as He.
    rewrite Hchat in He. destruct (He eq_refl) as (d & ->).
    do 3 eexists. split; [reflexivity |]. split; [right; right; reflexivity |].
    intros H. exfalso. apply H. reflexivity.
  - cbn [ret]. apply (chat_answer_not_empty clock llm s cid user w r).
    rewrite Hchat. reflexivity.
Qed.

(** X23. The voice handler never throws 'Invalid AI response.': a turn
    that returns has a non-empty string for an answer.  When the handler
    answers, the question is the transcription, a non-empty string, and
    the answer is not empty. *)
Theorem voice_handler_answer_check_is_dead :
  forall (clock : nat -> Z) (llm : list Turn -> jsstring + Reply)
         (transcribe : jsstring -> jsstring + JsVal) (req : VoiceRequest) (w : World),
    (forall status details,
        snd (post_voice clock llm transcribe req w)
        <> inl (HttpError status (lit "Invalid AI response.") details))
    /\ (forall question answer,
          snd (post_voice clock llm transcribe req w) = inr (question, answer) ->
          question <> [] /\ answer <> []
          /\ exists path, voice_file req = Some path
                          /\ transcribe path = inr (JString question)).
Proof.
  intros clock llm transcribe req w.
  assert (Hall :
    match snd (post_voice clock llm transcribe req w) with
    | inl e => forall status details,
                 e <> HttpError status (lit "Invalid AI response.") details
    | inr (question, answer) =>
        question <> [] /\ answer <> []
        /\ exists path, voice_file req = Some path
                        /\ transcribe path = inr (JString question)
    end).
  { unfold post_voice.
    destruct (voice_conversationId req) as [cid|]; [| cbn; intros; discriminate].
    destruct (voice_file req) as [path|]; [| cbn; intros; discriminate].
    unfold bind at 1. unfold transcribeAudio.
    destruct (transcribe path) as [msg|v] eqn:Htr; [cbn; intros; discriminate |].
    cbn [ret].
    destruct (negb (str_eqb (typeof v) (lit "string")) || is_empty_string v) eqn:Hg;
      [cbn; intros; discriminate |].
    apply string_guard_spec in Hg. destruct Hg as (s & -> & Hne).
    rewrite (bind_ok _ _ _ _ _ (get_length_string s w)).
    rewrite typeof_never_gt.
    unfold bind at 1. unfold getChildInfoById.
    destruct (findOne _ (users_coll w)) as [user|]; [| cbn; intros; discriminate].
    cbn [as_string]. unfold bind.
    destruct (chatWithLexi clock llm s cid user w) as [w' [e|r]] eqn:Hchat.
    - pose proof (chatWithLexi_error clock llm s cid user w e) as He.
      rewrite Hchat in He. destruct (He eq_refl) as (d & ->).
      cbn. intros; discriminate.
    - destruct (chat_answer_not_empty clock llm s cid user w r) as (a & Ha & Hane);
        [rewrite Hchat; reflexivity |].
      rewrite Ha. cbn [invalid_answer]. destruct a as [|c a]; [congruence |].
      cbn. split; [exact Hne |]. split; [discriminate |].
      exists path. split; [reflexivity | exact Htr]. }
  split.
  - intros status details H. rewrite H in Hall. apply (Hall status details). reflexivity.
  - intros question answer H. rewrite H in Hall. exact Hall.
Qed.

Lemma voice_handler_answer_check_is_dead_witness :
  exists path,
    Some (lit "tmp/1.ogg") = Some path
    /\ Sample.hearing (lit "Koga?") path = inr (JString (lit "Koga?")).
Proof.
  destruct (voice_handler_answer_check_is_dead Sample.clock Sample.answering
              (Sample.hearing (lit "Koga?"))
              (mkVoiceRequest (Some 100%N) (Some (lit "tmp/1.ogg")) 7%N) Sample.world)
    as [_ H].
  destruct (H (lit "Koga?") (lit "681") eq_refl) as (_ & _ & Hp). exact Hp.
Defined.

(** ** Speech *)

Lemma generateTTS_valid (speech : jsstring -> jsstring + Audio) (s : jsstring) :
  s <> [] -> (List.length s <= 4096)%nat ->
  generateTTS speech (JString s)
  = match speech s with
    | inl _ => inl (lit "Failed to generate TTS audio")
    | inr buffer => inr buffer
    end.
Proof.
  intros Hne Hlen. unfold generateTTS.
  destruct s as [|c s]; [congruence |].
  cbn [truthy is_nil negb typeof orb as_string].
  change (str_eqb (lit "string") (lit "string")) with true. cbn [negb].
  unfold str_length. rewrite gt_numbers.
  replace (4096 <? Z.of_nat (List.length (c :: s))) with false
    by (symmetry; apply Z.ltb_ge; lia).
  reflexivity.
Qed.

(** X24. [generateTTS] asks the speech service only for a non-empty
    string of at most 4096: for anything else it fails whatever the
    service would answer.  For such a string it returns the audio of the
    service; and every failure, its own refusals and those of the
    service alike, is the one error 'Failed to generate TTS audio'. *)
Theorem speech_is_asked_only_for_valid_text :
  forall (speech : jsstring -> jsstring + Audio) (text : JsVal),
    ((forall s, text <> JString s)
     \/ text = JString []
     \/ (exists s, text = JString s /\ (4096 < List.length s)%nat) ->
     generateTTS speech text = inl (lit "Failed to generate TTS audio"))
    /\ (forall s audio,
          text = JString s -> s <> [] -> (List.length s <= 4096)%nat ->
          speech s = inr audio -> generateTTS speech text = inr audio)
    /\ (forall m, generateTTS speech text = inl m ->
                  m = lit "Failed to generate TTS audio").
Proof.
  intros speech text. split; [| split].
  - intros [H | [H | (s & H & Hlen)]].
    + assert (Hty : negb (str_eqb (typeof text) (lit "string")) = true)
        by (destruct text as [| | b | n | s |]; try reflexivity;
            exfalso; apply (H s); reflexivity).
      unfold generateTTS. rewrite Hty, orb_true_r. reflexivity.
    + rewrite H. reflexivity.
    + rewrite H. unfold generateTTS.
      destruct s as [|c s]; [reflexivity |].
      cbn [truthy is_nil negb typeof orb as_string].
      change (str_eqb (lit "string") (lit "string")) with true. cbn [negb].
      unfold str_length. rewrite gt_numbers.
      replace (4096 <? Z.of_nat (List.length (c :: s))) with true
        by (symmetry; apply Z.ltb_lt; lia).
      reflexivity.
  - intros s audio -> Hne Hlen Hs. rewrite generateTTS_valid by assumption.
    rewrite Hs. reflexivity.
  - intros m. unfold generateTTS.
    match goal with |- context [match ?a with inl _ => _ | inr _ => _ end] =>
      destruct a end; intros H; inversion H; reflexivity.
Qed.

Lemma speech_is_asked_only_for_valid_text_witness :
  generateTTS (fun _ => inr [1%N; 2%N]) (JString (repeat 65%N 4097))
  = inl (lit "Failed to generate TTS audio")
  /\ generateTTS (fun _ => inr [1%N; 2%N]) (JString (repeat 65%N 4096))
     = inr [1%N; 2%N].
Proof.
  split.
  - apply (proj1 (speech_is_asked_only_for_valid_text (fun _ => inr [1%N; 2%N])
                    (JString (repeat 65%N 4097)))).
    right. right. eexists. split; [reflexivity |]. rewrite repeat_length. lia.
  - apply (proj1 (proj2 (speech_is_asked_only_for_valid_text (fun _ => inr [1%N; 2%N])
                           (JString (repeat 65%N 4096))))
             (repeat 65%N 4096) [1%N; 2%N] eq_refl).
    + discriminate.
    + rewrite repeat_length. lia.
    + reflexivity.
Defined.

Lemma text_handler_outcomes_witness :
  post_text Sample.clock Sample.answering
    (mkTextRequest (JString []) (Some 100%N) 7%N) Sample.world
  = (Sample.world, inl (HttpError 400 (lit "Bad Request") (Some (lit "Invalid user input")))).
Proof.
  pose proof (text_handler_outcomes Sample.clock Sample.answering
                (mkTextRequest (JString []) (Some 100%N) 7%N) Sample.world) as H.
  destruct (post_text Sample.clock Sample.answering
              (mkTextRequest (JString []) (Some 100%N) 7%N) Sample.world)
    as [w' [e|a]] eqn:Hp.
  - destruct H as (st & m & d & He & _ & Hw).
    vm_compute in Hp. injection Hp as <- <-. reflexivity.
  - vm_compute in Hp. discriminate Hp.
Defined.

Lemma turn_touches_only_its_conversation_witness :
  In (mkConversation 100%N [] 7%N (Time.date_utc 2024 6 12 7 0) (Time.date_utc 2024 6 12 7 0))
    (conversations_coll
       (fst (chatWithLexi Sample.clock Sample.answering (lit "Q") 555%N Sample.kid
               Sample.world))).
Proof.
  destruct (turn_touches_only_its_conversation Sample.clock Sample.answering (lit "Q")
              555%N Sample.kid Sample.world) as (_ & _ & _ & _ & _ & Hother & _).
  apply Hother; [discriminate | left; reflexivity].
Defined.

(** X25. The buffer handler runs the whole turn before it produces the
    audio: when it refuses an answer longer than 4096 with 'TTS input
    is too long.', and when the speech service fails, the question and
    the answer are already stored.  It never throws 'Invalid TTS
    input.'; a plain error comes from the speech service alone, never
    from a refusal of [generateTTS]; and the audio it answers is that of
    a non-empty answer of at most 4096. *)
Theorem buffer_handler_records_the_turn_first :
  forall (clock : nat -> Z) (llm : list Turn -> jsstring + Reply)
         (transcribe : jsstring -> jsstring + JsVal)
         (speech : jsstring -> jsstring + Audio) (req : VoiceRequest) (w : World),
    let r := post_buffer clock llm transcribe speech req w in
    (forall status details,
        snd r <> inl (Known (HttpError status (lit "Invalid TTS input.") details)))
    /\ (forall e,
          snd r = inl e ->
          (exists details,
              e = Known (HttpError 400 (lit "TTS input is too long.") details))
          \/ (exists m, e = PlainError m) ->
          exists conversationId text reply answer,
            r_content reply = Some answer
            /\ messages_coll (fst r)
               = messages_coll w
                 ++ [user_message clock w text conversationId;
                     assistant_message clock w reply conversationId])
    /\ (forall m,
          snd r = inl (PlainError m) ->
          m = lit "Failed to generate TTS audio"
          /\ exists answer msg,
               speech answer = inl msg
               /\ answer <> [] /\ (List.length answer <= 4096)%nat)
    /\ (forall audio,
          snd r = inr audio ->
          exists answer,
            speech answer = inr audio
            /\ answer <> [] /\ (List.length answer <= 4096)%nat).
Proof.
  intros clock llm transcribe speech req w r.
  assert (Hall :
    match r with
    | (w', inl (Known (HttpError status message details))) =>
        message <> lit "Invalid TTS input."
        /\ (message = lit "TTS input is too long." ->
            exists cid text reply answer,
              r_content reply = Some answer
              /\ messages_coll w'
                 = messages_coll w
                   ++ [user_message clock w text cid; assistant_message clock w reply cid])
    | (w', inl (Known _)) => True
    | (w', inl (PlainError m)) =>
        m = lit "Failed to generate TTS audio"
        /\ (exists answer msg,
               speech answer = inl msg /\ answer <> [] /\ (List.length answer <= 4096)%nat)
        /\ exists cid text reply answer,
             r_content reply = Some answer
             /\ messages_coll w'
                = messages_coll w
                  ++ [user_message clock w text cid; assistant_message clock w reply cid]
    | (w', inr audio) =>
        exists answer,
          speech answer = inr audio /\ answer <> [] /\ (List.length answer <= 4096)%nat
    end).
  { subst r. unfold post_buffer, buffer_answer.
    destruct (voice_conversationId req) as [cid|];
      [| cbn; split; [discriminate | intros H; discriminate H]].
    destruct (voice_file req) as [path|];
      [| cbn; split; [discriminate | intros H; discriminate H]].
    unfold bind at 1. unfold transcribeAudio.
    destruct (transcribe path) as [msg|v] eqn:Htr; [cbn; exact I |].
    cbn [ret].
    destruct (negb (str_eqb (typeof v) (lit "string")) || is_empty_string v) eqn:Hg;
      [cbn; split; [discriminate | intros H; discriminate H] |].
    apply string_guard_spec in Hg. destruct Hg as (s & -> & Hne).
    unfold bind at 1. unfold getChildInfoById.
    destruct (findOne _ (users_coll w)) as [user|];
      [| cbn; split; [discriminate | intros H; discriminate H]].
    cbn [as_string]. unfold bind.
    destruct (chatWithLexi clock llm s cid user w) as [w' [e|resp]] eqn:Hchat.
    - pose proof (chatWithLexi_error clock llm s cid user w e) as He.
      rewrite Hchat in He. destruct (He eq_refl) as (d & ->).
      cbn. split; [discriminate | intros H; discriminate H].
    - destruct (chat_answer_not_empty clock llm s cid user w resp) as (a & Ha & Hane);
        [rewrite Hchat; reflexivity |].
      pose proof (chat_answer_recorded clock llm s cid user w resp) as Hrec.
      rewrite Hchat in Hrec. cbn [fst snd] in Hrec. specialize (Hrec eq_refl).
      rewrite Ha. replace (invalid_answer (Some a)) with false
        by (symmetry; apply invalid_answer_spec; eexists; split; [reflexivity | exact Hane]).
      unfold str_length. rewrite gt_numbers.
      destruct (Z.ltb_spec 4096 (Z.of_nat (List.length a))) as [Hlong|Hshort].
      + cbn. split; [discriminate |]. intros _.
        exists cid, s, (message resp), a. split; [exact Ha | exact Hrec].
      + cbn [ret]. rewrite generateTTS_valid by (try exact Hane; lia).
        destruct (speech a) as [msg|audio] eqn:Hsp.
        * split; [reflexivity |].
          split; [exists a, msg; repeat split; try assumption; lia |].
          exists cid, s, (message resp), a. split; [exact Ha | exact Hrec].
        * exists a. repeat split; try assumption; lia. }
  destruct r as [w' [[[st m d | m | m | m] | m] | audio]]; cbn [fst snd].
  - destruct Hall as [Hne Hlong]. split; [| split; [| split]].
    + intros status details H. injection H as _ Hm _. congruence.
    + intros e He [(d' & Hd) | (m' & Hm')]; injection He as <-; [| discriminate Hm'].
      injection Hd as _ Hm _. apply Hlong. exact Hm.
    + intros m' H. discriminate H.
    + intros audio H. discriminate H.
  - split; [discriminate |]. split; [| split; intros ? H; discriminate H].
    intros e He [(d' & Hd) | (m' & Hm')]; injection He as <-; discriminate.
  - split; [discriminate |]. split; [| split; intros ? H; discriminate H].
    intros e He [(d' & Hd) | (m' & Hm')]; injection He as <-; discriminate.
  - split; [discriminate |]. split; [| split; intros ? H; discriminate H].
    intros e He [(d' & Hd) | (m' & Hm')]; injection He as <-; discriminate.
  - destruct Hall as (Hm & Hsp & Hrec). split; [discriminate |]. split; [| split].
    + intros e He _. exact Hrec.
    + intros m' H. injection H as <-. split; [exact Hm | exact Hsp].
    + intros audio H. discriminate H.
  - split; [discriminate |]. split; [intros e H; discriminate H |].
    split; [intros m H; discriminate H |].
    intros audio' H. injection H as <-. exact Hall.
Qed.

(** The model answers 4097 characters: the handler refuses the audio
    and the two messages stay stored. *)
Lemma buffer_handler_records_the_turn_first_witness :
  let long := fun _ : list Turn =>
                inr (mkReply (lit "assistant") (Some (repeat 65%N 4097)))
                : jsstring + Reply in
  let r := post_buffer Sample.clock long (Sample.hearing (lit "Koga?"))
             (fun _ => inr [1%N]) (mkVoiceRequest (Some 100%N) (Some (lit "tmp/1.ogg")) 7%N)
             Sample.world in
  exists conversationId text reply answer,
    r_content reply = Some answer
    /\ messages_coll (fst r)
       = messages_coll Sample.world
         ++ [user_message Sample.clock Sample.world text conversationId;
             assistant_message Sample.clock Sample.world reply conversationId].
Proof.
  cbv zeta.
  apply (proj1 (proj2 (buffer_handler_records_the_turn_first Sample.clock
                         (fun _ => inr (mkReply (lit "assistant")
                                          (Some (repeat 65%N 4097))))
                         (Sample.hearing (lit "Koga?")) (fun _ => inr [1%N])
                         (mkVoiceRequest (Some 100%N) (Some (lit "tmp/1.ogg")) 7%N)
                         Sample.world))
           (Known (HttpError 400 (lit "TTS input is too long.")
                     (Some (lit "The maximum length is 4096 characters."))))).
  - vm_compute. reflexivity.
  - left. eexists. reflexivity.
Defined.
